(** * NotificationFeed: denormalized unseen count, value swap and pubsub

    A shallow embedding of [feedly/feeds/notification_feed.py].  The feed
    keeps three views of one user's notifications in Redis: a sorted set of
    serialized aggregated activities, a counter cell with the number of
    unseen ones, and a pubsub channel on which that number is announced.

    Redis is a record of its string keys and sorted sets together with the
    log of the commands that were issued; every method of the class is a
    state transformer over it. *)

From Stdlib Require Import ZArith String Ascii List Lia Permutation Sorted.
From Stdlib Require Import DecimalString DecimalZ DecimalPos.
From stdpp Require Import base gmap strings list.

Local Open Scope string_scope.
Local Open Scope list_scope.
Local Open Scope Z_scope.

(** ** The Python built-ins the feed relies on *)

Module Py.

(** [str.strip()] removes the six ASCII white space characters. *)
Definition is_space (c : ascii) : bool :=
  match N_of_ascii c with
  | 9%N | 10%N | 11%N | 12%N | 13%N | 32%N => true
  | _ => false
  end.

Fixpoint lstrip (s : string) : string :=
  match s with
  | EmptyString => EmptyString
  | String c s' => if is_space c then lstrip s' else s
  end.

Fixpoint rstrip (s : string) : string :=
  match s with
  | EmptyString => EmptyString
  | String c s' =>
      match rstrip s' with
      | EmptyString => if is_space c then EmptyString else String c EmptyString
      | r => String c r
      end
  end.

Definition strip (s : string) : string := rstrip (lstrip s).

(** One or more decimal digits. *)
Definition digits (s : string) : option Z :=
  match s with
  | EmptyString => None
  | _ => Z.of_uint <$> NilEmpty.uint_of_string s
  end.

(** [int(s)] for a string [s]: surrounding white space is dropped, one
    sign is allowed, the rest must be decimal digits (no separators between
    them).  [None] stands for the [ValueError] that [int] raises on any other
    string. *)
Definition int_of_str (s : string) : option Z :=
  match strip s with
  | String "-" r => Z.opp <$> digits r
  | String "+" r => digits r
  | t => digits t
  end.

(** [str(n)] for an integer [n]. *)
Definition str_of_int (n : Z) : string := NilZero.string_of_int (Z.to_int n).

(** Truth value of a string: every string but the empty one is true. *)
Definition truthy (s : string) : bool :=
  match s with EmptyString => false | _ => true end.

(** A value that is a string or an integer. *)
Inductive str_or_int := Str (s : string) | Int (n : Z).

(** [x or d] for [x] a string or [None] and [d] an integer: [x] if it is
    true, else [d]. *)
Definition or_else (x : option string) (d : Z) : str_or_int :=
  match x with
  | Some s => if truthy s then Str s else Int d
  | None => Int d
  end.

(** [int(x)]: an integer is kept, a string is read. *)
Definition int (x : str_or_int) : option Z :=
  match x with
  | Str s => int_of_str s
  | Int n => Some n
  end.

(** Truth value of a list: every list but the empty one is true. *)
Definition truthy_list {A} (l : list A) : bool :=
  match l with [] => false | _ => true end.

(** Arguments such as [seen=True, read=None]: the code tests them with
    [is True], which holds of the constant [True] alone. *)
Inductive flag := PyNone | PyTrue | PyFalse.

Definition is_True (f : flag) : bool :=
  match f with PyTrue => true | _ => false end.

Fixpoint skip (n : nat) (s : string) : string :=
  match n, s with
  | S n', String _ s' => skip n' s'
  | _, _ => s
  end.

(** [s] with the first occurrence of [pat] replaced by [rep]. *)
Fixpoint replace_first (pat rep s : string) : string :=
  match s with
  | EmptyString => EmptyString
  | String c s' =>
      if String.prefix pat s
      then rep +:+ skip (String.length pat) s
      else String c (replace_first pat rep s')
  end.

(** The right operand of [%]: a user id, or the dictionary
    [{'user_id': user_id}] that the feed keeps as [format_dict]. *)
Inductive operand := Scalar (n : Z) | Mapping (user_id : Z).

Definition str_of_operand (x : operand) : string :=
  match x with
  | Scalar n => str_of_int n
  | Mapping n => "{'user_id': " +:+ str_of_int n +:+ "}"
  end.

(** [f % x] for a format [f] with one placeholder: [%(user_id)s] takes the
    entry of the dictionary, [%s] takes the operand whole, be it a
    dictionary. *)
Definition percent (f : string) (x : operand) : string :=
  match x with
  | Scalar n => replace_first "%s" (str_of_int n) f
  | Mapping n =>
      replace_first "%s" (str_of_operand x)
        (replace_first "%(user_id)s" (str_of_int n) f)
  end.

(** A string without white space. *)
Fixpoint solid (s : string) : Prop :=
  match s with
  | EmptyString => True
  | String c s' => is_space c = false /\ solid s'
  end.

(** The character [c] does not occur in [s]. *)
Fixpoint lacks (c : ascii) (s : string) : bool :=
  match s with
  | EmptyString => true
  | String d s' => negb (Ascii.eqb c d) && lacks c s'
  end.

End Py.

(** What a call gives back: a value, or the exception it raised. *)
Inductive exn := ValueError.

Inductive outcome (A : Type) :=
| Ok (a : A)
| Raise (e : exn).
Arguments Ok {A} a.
Arguments Raise {A} e.

(** ** Data model *)

(** Raw activities are opaque to the feed. *)
Class RawActivity := {
  Activity : Type;
  Activity_eq_dec :: EqDecision Activity
}.

(** Modelled from the spec: [feedly.activity] is not part of the source.  An
    aggregated activity is a group of raw activities with the time of its
    last update and the optional times at which it was seen and read.  Times
    are [datetime] values, taken as integer timestamps. *)
Record AggregatedActivity `{RawActivity} := mkAggregated {
  group : string;
  activities : list Activity;
  updated_at : Z;
  seen_at : option Z;
  read_at : option Z
}.

#[export] Instance AggregatedActivity_eq_dec `{RawActivity} :
  EqDecision AggregatedActivity.
Proof. solve_decision. Defined.

(** Modelled from the spec: [is_seen() ≡ seen_at != null] and
    [is_read() ≡ read_at != null]. *)
Definition is_seen `{RawActivity} (a : AggregatedActivity) : bool :=
  match seen_at a with Some _ => true | None => false end.

Definition is_read `{RawActivity} (a : AggregatedActivity) : bool :=
  match read_at a with Some _ => true | None => false end.

Definition set_seen_at `{RawActivity} (t : Z) (a : AggregatedActivity) :=
  mkAggregated _ (group a) (activities a) (updated_at a) (Some t) (read_at a).

Definition set_read_at `{RawActivity} (t : Z) (a : AggregatedActivity) :=
  mkAggregated _ (group a) (activities a) (updated_at a) (seen_at a) (Some t).

(** ** Collaborators outside the source file *)

(** Modelled from the spec: the serializer ([AggregatedActivitySerializer] and
    [get_activity_score] are not part of the source).  [serialize_activity]
    gives the member stored in the sorted set, [get_activity_score] its
    score, [deserialize_activity] reads a member back. *)
Class Serializer `{RawActivity} := {
  value : Type;
  value_eq_dec :: EqDecision value;
  serialize_activity : AggregatedActivity -> value;
  deserialize_activity : value -> AggregatedActivity;
  get_activity_score : AggregatedActivity -> Z
}.

(** A serialized entry identifies its content. *)
Class Lossless `{Serializer} :=
  deserialize_serialize : forall a, deserialize_activity (serialize_activity a) = a.

(** [datetime.datetime.today()]: the k-th reading of the wall clock. *)
Class Clock := today_at : nat -> Z.

(** A sorted set: members with their scores, no member twice. *)
Definition zset `{Serializer} := list (value * Z).

(** Modelled from the spec: [AggregatedFeed.add_many] is not part of the
    source.  It merges raw activities into the stored entries and returns the
    full resulting collection. *)
Class Aggregator `{Serializer} :=
  merge : list Activity -> zset -> zset * list AggregatedActivity.

(** ** Redis *)

Section Redis.
Context `{Serializer}.

(** The commands that change Redis or leave the process, in the order of
    their issue.  [Merge] stands for the writes of [AggregatedFeed.add_many],
    [MapEnter] and [MapExit] for the bounds of a batch. *)
Inductive Event :=
| Lock (key : string) (timeout : Z)
| Unlock (key : string)
| MapEnter
| MapExit
| Merge (key : string)
| ZRem (key : string) (members : list value)
| ZAdd (key : string) (pairs : list (value * Z))
| SetKey (key : string) (v : string)
| Publish (channel : string) (message : string).

Record World := mkWorld {
  strings : gmap string string;
  zsets : gmap string zset;
  ticks : nat;
  log : list Event
}.

Definition emit (e : Event) (w : World) : World :=
  mkWorld (strings w) (zsets w) (ticks w) (log w ++ [e]).

Definition zset_at (key : string) (w : World) : zset :=
  default [] (zsets w !! key).

Definition members (z : zset) : list value := map fst z.

(** Modelled from the spec: the sorted set commands ([RedisSortedSetCache]
    is not part of the source).  ZREM drops members by value, ZADD adds
    a member or gives a present one its new score. *)
Definition zrem (vs : list value) (z : zset) : zset :=
  filter (fun p => p.1 ∉ vs) z.

Definition zadd1 (p : value * Z) (z : zset) : zset :=
  p :: filter (fun q => q.1 ≠ p.1) z.

Definition zadd (pairs : list (value * Z)) (z : zset) : zset :=
  foldl (fun z p => zadd1 p z) z pairs.

(** Stable sort on a key, greatest first: [list.sort(key=..., reverse=True)]
    keeps entries of equal key in their order. *)
Fixpoint insert_desc {A} (key : A -> Z) (a : A) (l : list A) : list A :=
  match l with
  | [] => [a]
  | b :: l' =>
      if key b <=? key a then a :: b :: l' else b :: insert_desc key a l'
  end.

Fixpoint sort_desc {A} (key : A -> Z) (l : list A) : list A :=
  match l with
  | [] => []
  | a :: l' => insert_desc key a (sort_desc key l')
  end.

(** Greatest key first. *)
Definition descending {A} (key : A -> Z) (l : list A) : Prop :=
  StronglySorted (fun a b => key b <= key a) l.

(** Modelled from the spec: the range read of the store, ZREVRANGE 0 (n-1),
    gives the [n] members of highest score.  The store breaks ties between
    equal scores by an order of its own; here equal scores keep the order of
    the representation, and no property below depends on that choice. *)
Definition zrevrange (n : nat) (z : zset) : list value :=
  members (firstn n (sort_desc snd z)).

End Redis.

(** ** A small state monad over [World] *)

Definition M `{Serializer} (A : Type) : Type := World -> A * World.

Definition ret `{Serializer} {A} (a : A) : M A := fun w => (a, w).

Definition bind `{Serializer} {A B} (m : M A) (k : A -> M B) : M B :=
  fun w => let '(a, w') := m w in k a w'.

Notation "x <- m ;; k" := (bind m (fun x => k))
  (at level 20, m at level 99, k at level 200, only parsing).
Notation "' pat <- m ;; k" := (bind m (fun x => match x with pat => k end))
  (at level 20, pat pattern, m at level 99, k at level 200, only parsing).
Notation "m ;; k" := (bind m (fun _ => k))
  (at level 100, k at level 200, only parsing, right associativity).

Section Commands.
Context `{Serializer}.

Definition redis_get (key : string) : M (option string) :=
  fun w => (strings w !! key, w).

Definition redis_set (key : string) (v : string) : M unit :=
  fun w => (tt, emit (SetKey key v)
                  (mkWorld (<[key := v]> (strings w)) (zsets w) (ticks w) (log w))).

Definition redis_publish (channel message : string) : M unit :=
  fun w => (tt, emit (Publish channel message) w).

Definition redis_zrem (key : string) (vs : list value) : M unit :=
  fun w => (tt, emit (ZRem key vs)
                  (mkWorld (strings w) (<[key := zrem vs (zset_at key w)]> (zsets w))
                           (ticks w) (log w))).

Definition redis_zadd (key : string) (pairs : list (value * Z)) : M unit :=
  fun w => (tt, emit (ZAdd key pairs)
                  (mkWorld (strings w) (<[key := zadd pairs (zset_at key w)]> (zsets w))
                           (ticks w) (log w))).

Definition redis_zrevrange (key : string) (n : nat) : M (list value) :=
  fun w => (zrevrange n (zset_at key w), w).

(** [with self.redis.lock(key, timeout=t): body], in a process that finds
    the lock free: it is acquired, the body runs, it is released. *)
Definition with_lock {A} (key : string) (timeout : Z) (body : M A) : M A :=
  (fun w => (tt, emit (Lock key timeout) w)) ;;
  r <- body ;;
  (fun w => (tt, emit (Unlock key) w)) ;;
  ret r.

(** Modelled from the spec: [with self.map(): body] ([map] is inherited from
    a class that is not part of the source).  The commands of the body go
    out as one batch, in their order. *)
Definition with_map {A} (body : M A) : M A :=
  (fun w => (tt, emit MapEnter w)) ;;
  r <- body ;;
  (fun w => (tt, emit MapExit w)) ;;
  ret r.

Definition today `{Clock} : M Z :=
  fun w => (today_at (ticks w),
            mkWorld (strings w) (zsets w) (S (ticks w)) (log w)).

End Commands.

(** ** The feed *)

Record NotificationFeed := mkFeed {
  user_id : Z;
  key : string;
  count_key : string;
  pubsub_key : option string;
  lock_key : string
}.

Definition max_length : nat := 99.

(** key format for storing the sorted set *)
Definition key_format : string := "notification_feed:1:user:%s".
(** the format we use to denormalize the count *)
Definition count_format : string := "notification_feed:1:user:%(user_id)s:count".
(** the key used for locking *)
Definition lock_format : string := "notification_feed:1:user:%s:lock".
(** the format we use to send the pubsub update *)
Definition pubsub_format : option string :=
  Some "notification_feed:1:user:%(user_id)s:pubsub".

(** [__init__].  [cls_pubsub_format] is what [getattr(self, 'pubsub_format',
    None)] finds on the class.  Modelled from the spec: what
    [AggregatedFeed.__init__], which is not part of the source, leaves behind,
    the key of the sorted set and [format_dict = {'user_id': user_id}]. *)
Definition init (cls_pubsub_format : option string) (uid : Z)
  : NotificationFeed :=
  let key := Py.percent key_format (Py.Scalar uid) in
  let format_dict := Py.Mapping uid in
  let count_key := Py.percent count_format format_dict in
  let pubsub_key :=
    match cls_pubsub_format with
    | Some f => if Py.truthy f then Some (Py.percent f format_dict) else None
    | None => None
    end in
  let lock_key := Py.percent lock_format format_dict in
  mkFeed uid key count_key pubsub_key lock_key.

(** The class as it is written. *)
Definition NotificationFeed_init (uid : Z) : NotificationFeed :=
  init pubsub_format uid.

(** [if self.pubsub_key:] *)
Definition has_pubsub (self : NotificationFeed) : bool :=
  match pubsub_key self with
  | Some k => Py.truthy k
  | None => false
  end.

Definition channel (self : NotificationFeed) : string :=
  default "" (pubsub_key self).

(** Modelled from the spec: a [dict] keyed by aggregated activities, whose
    [__eq__] and [__hash__] are not part of the source, compares its keys by
    value.  Assigning to a present key replaces its value; a new key goes
    last, and [items()] goes through the keys in this order. *)
Fixpoint dict_set {K V} `{EqDecision K} (d : list (K * V)) (k : K) (v : V)
  : list (K * V) :=
  match d with
  | [] => [(k, v)]
  | (k', v') :: d' =>
      if decide (k' = k) then (k', v) :: d' else (k', v') :: dict_set d' k v
  end.

Section Feed.
Context `{Serializer} `{!Clock} `{!Aggregator}.
Variable self : NotificationFeed.

(** Modelled from the spec: [self[:n]] ([__getitem__] is inherited from a
    class that is not part of the source) reads the [n] entries of highest
    score and deserializes them. *)
Definition getitem_slice (n : nat) : M (list AggregatedActivity) :=
  vs <- redis_zrevrange (key self) n ;;
  ret (map deserialize_activity vs).

(** Modelled from the spec: [AggregatedFeed.remove_many] removes the
    serialized forms of the entries it is given. *)
Definition remove_many (entries : list AggregatedActivity) : M unit :=
  redis_zrem (key self) (map serialize_activity entries).

(** Modelled from the spec: [RedisSortedSetCache.add_many] adds (value,
    score) pairs to the sorted set of the feed. *)
Definition sorted_set_add_many (pairs : list (value * Z)) : M unit :=
  redis_zadd (key self) pairs.

(** Modelled from the spec: [AggregatedFeed.add_many] merges the new
    activities into the sorted set of the feed, touches nothing else of
    Redis, and returns the resulting collection. *)
Definition aggregated_add_many (new : list Activity)
  : M (list AggregatedActivity) :=
  fun w =>
    let '(z, current) := merge new (zset_at (key self) w) in
    (current, emit (Merge (key self))
                (mkWorld (strings w) (<[key self := z]> (zsets w))
                         (ticks w) (log w))).

(** [count_unseen] on a given collection: the loop over its entries. *)
Definition count_unseen_in (entries : list AggregatedActivity) : Z :=
  foldl (fun count a => if negb (is_seen a) then count + 1 else count)
        0 entries.

Definition count_unseen (entries : option (list AggregatedActivity)) : M Z :=
  entries <- match entries with
             | None => getitem_slice max_length
             | Some l => ret l
             end ;;
  ret (count_unseen_in entries).

(** [denormalize_count].  [activities.sort] sorts the list of the caller in
    place, so the result carries the list as the caller finds it afterwards
    next to the count.  [logger.debug] has no effect on Redis. *)
Definition denormalize_count (entries : list AggregatedActivity)
  : M (list AggregatedActivity * Z) :=
  let entries := sort_desc updated_at entries in
  let current_activities := firstn max_length entries in
  count <- count_unseen (Some current_activities) ;;
  redis_set (count_key self) (Py.str_of_int count) ;;
  (if has_pubsub self
   then redis_publish (channel self) (Py.str_of_int count)
   else ret tt) ;;
  ret (entries, count).

Definition add_many (new : list Activity) : M (list AggregatedActivity) :=
  with_lock (lock_key self) 2 (
    current_activities <- aggregated_add_many new ;;
    '(current_activities, count) <- denormalize_count current_activities ;;
    (if has_pubsub self
     then redis_publish (channel self) (Py.str_of_int count)
     else ret tt) ;;
    ret current_activities).

(** [get_denormalized_count]: [redis.get(...) or 0], then [int].  The call
    reads Redis and leaves it as it is. *)
Definition get_denormalized_count (w : World) : outcome Z :=
  let result := Py.or_else (redis_get (count_key self) w).1 0 in
  match Py.int result with
  | Some result => Ok result
  | None => Raise ValueError
  end.

(** The body of the loop of [mark_all] for one entry: the entry afterwards
    and whether it changed. *)
Definition mark_one (seen read : Py.flag) (activity : AggregatedActivity)
  : M (AggregatedActivity * bool) :=
  let changed := false in
  '(activity, changed) <-
    (if Py.is_True seen && negb (is_seen activity)
     then t <- today ;; ret (set_seen_at t activity, true)
     else ret (activity, changed)) ;;
  '(activity, changed) <-
    (if Py.is_True read && negb (is_read activity)
     then t <- today ;; ret (set_read_at t activity, true)
     else ret (activity, changed)) ;;
  ret (activity, changed).

(** The loop of [mark_all]: the entries afterwards and [update_dict], which
    maps the copy of each changed entry ([copy.deepcopy], taken before the
    entry is touched) to the entry as changed. *)
Fixpoint mark_loop (seen read : Py.flag) (entries : list AggregatedActivity)
  (update_dict : list (AggregatedActivity * AggregatedActivity))
  : M (list AggregatedActivity *
       list (AggregatedActivity * AggregatedActivity)) :=
  match entries with
  | [] => ret ([], update_dict)
  | activity :: rest =>
      let old_activity := activity in
      '(activity, changed) <- mark_one seen read activity ;;
      let update_dict :=
        if changed then dict_set update_dict old_activity activity
        else update_dict in
      '(rest, update_dict) <- mark_loop seen read rest update_dict ;;
      ret (activity :: rest, update_dict)
  end.

Definition mark_all (seen read : Py.flag) : M (list AggregatedActivity) :=
  with_lock (lock_key self) 2 (
    entries <- getitem_slice max_length ;;
    '(entries, update_dict) <- mark_loop seen read entries [] ;;
    let to_delete := map fst update_dict in
    let to_add :=
      map (fun p => (serialize_activity p.2, get_activity_score p.2))
          update_dict in
    with_map (
      (if Py.truthy_list to_delete then remove_many to_delete else ret tt) ;;
      (if Py.truthy_list to_add then sorted_set_add_many to_add else ret tt) ;;
      '(entries, count) <- denormalize_count entries ;;
      ret entries)).

End Feed.

(** ** The vocabulary of the properties *)

Section Vocabulary.
Context `{Serializer} `{!Clock} `{!Aggregator}.
Variable self : NotificationFeed.

(** The number of unseen entries of a collection. *)
Definition unseen (l : list AggregatedActivity) : nat :=
  length (filter (fun a => is_seen a = false) l).


(** The count that [denormalize_count] derives from a collection. *)
Definition top_count (entries : list AggregatedActivity) : Z :=
  count_unseen_in (take max_length (sort_desc updated_at entries)).

(** The publish of a count, if the feed has a channel. *)
Definition announce (count : Z) : list Event :=
  if has_pubsub self
  then [Publish (channel self) (Py.str_of_int count)]
  else [].

(** Whether [mark_all] has something to mark on an entry. *)
Definition needs_change (seen read : Py.flag) (a : AggregatedActivity) : bool :=
  Py.is_True seen && negb (is_seen a) || Py.is_True read && negb (is_read a).

(** What the loop of [mark_all] does to one entry, with the clock readings
    numbered from [lo] up to [hi]: a time is set where it is asked for
    and missing, everything else stays. *)
Definition marks (seen read : Py.flag) (lo hi : nat)
  (a a' : AggregatedActivity) : Prop :=
  group a' = group a /\ activities a' = activities a /\
  updated_at a' = updated_at a /\
  (if Py.is_True seen && negb (is_seen a)
   then exists k, (lo <= k < hi)%nat /\ seen_at a' = Some (today_at k)
   else seen_at a' = seen_at a) /\
  (if Py.is_True read && negb (is_read a)
   then exists k, (lo <= k < hi)%nat /\ read_at a' = Some (today_at k)
   else read_at a' = read_at a).

(** [update_dict] after the loop has gone through the entries paired with
    their changed selves. *)
Definition dict_of (seen read : Py.flag)
  (d : list (AggregatedActivity * AggregatedActivity))
  (pairs : list (AggregatedActivity * AggregatedActivity))
  : list (AggregatedActivity * AggregatedActivity) :=
  foldl (fun d p => if needs_change seen read p.1
                    then dict_set d p.1 p.2 else d) d pairs.

Definition with_ticks (k : nat) (w : World) : World :=
  mkWorld (strings w) (zsets w) k (log w).

(** The entries [mark_all] reads, and what its loop makes of them. *)
Definition window (w : World) : list AggregatedActivity :=
  map deserialize_activity (zrevrange max_length (zset_at (key self) w)).

Definition marked (seen read : Py.flag) (w : World) :=
  mark_loop seen read (window w) [] w.

(** The members [mark_all] removes and the pairs it adds. *)
Definition to_delete_of (d : list (AggregatedActivity * AggregatedActivity))
  : list value :=
  map serialize_activity (map fst d).

Definition to_add_of (d : list (AggregatedActivity * AggregatedActivity))
  : list (value * Z) :=
  map (fun p => (serialize_activity p.2, get_activity_score p.2)) d.

Definition swap_events (d : list (AggregatedActivity * AggregatedActivity))
  : list Event :=
  match d with
  | [] => []
  | _ => [ZRem (key self) (to_delete_of d); ZAdd (key self) (to_add_of d)]
  end.

Definition swap_zset (d : list (AggregatedActivity * AggregatedActivity))
  (z : zset) : zset :=
  zadd (to_add_of d) (zrem (to_delete_of d) z).

(** The events a call appends to the log. *)
Definition issued {A} (m : M A) (w : World) : list Event :=
  drop (length (log w)) (log (m w).2).

(** The messages published by a list of events, with their channels. *)
Definition publishes (l : list Event) : list (string * string) :=
  omap (fun e => match e with
                 | Publish c m => Some (c, m)
                 | _ => None
                 end) l.

(** The values written to a string key by a list of events. *)
Definition writes (k : string) (l : list Event) : list string :=
  omap (fun e => match e with
                 | SetKey k' v => if decide (k' = k) then Some v else None
                 | _ => None
                 end) l.

(** The events of one operation write [v] to the counter cell [k] once,
    and every publish among them carries [v], goes to the channel of the
    feed and comes after that write. *)
Definition publish_after_write (k : string) (evs : list Event) (v : string)
  : Prop :=
  writes k evs = [v] /\
  forall pre c m post,
    evs = pre ++ Publish c m :: post ->
    c = channel self /\ m = v /\ SetKey k v ∈ pre.

(** The published messages of the three methods on a feed with a
    channel: one by [denormalize_count], two by [add_many], one by
    [mark_all], each with the count that the call wrote. *)
Definition publish_tally : Prop :=
  (forall entries w,
      publishes (issued (denormalize_count self entries) w)
      = [(channel self, Py.str_of_int (denormalize_count self entries w).1.2)]) /\
  (forall new w,
      exists n,
        strings (add_many self new w).2 !! count_key self
        = Some (Py.str_of_int n) /\
        publishes (issued (add_many self new) w)
        = [(channel self, Py.str_of_int n); (channel self, Py.str_of_int n)]) /\
  (forall seen read w,
      exists n,
        strings (mark_all self seen read w).2 !! count_key self
        = Some (Py.str_of_int n) /\
        publishes (issued (mark_all self seen read) w)
        = [(channel self, Py.str_of_int n)]).

(** [mark_all] on [w] has swapped the member [v]: [v] is gone from the
    sorted set, the serialized form of the entry as marked is there with
    its score, and the two were part of the one ZREM and the one ZADD
    issued, in this order, inside the batch. *)
Definition swapped (seen read : Py.flag) (w : World) (v : value) : Prop :=
  let r := mark_all self seen read w in
  let count := top_count (marked seen read w).1.1 in
  (v ∉ members (zset_at (key self) r.2)) /\
  exists new dels adds,
    marks seen read (ticks w) (ticks r.2) (deserialize_activity v) new /\
    new ∈ r.1 /\
    (serialize_activity new, get_activity_score new)
      ∈ zset_at (key self) r.2 /\
    v ∈ dels /\
    (serialize_activity new, get_activity_score new) ∈ adds /\
    issued (mark_all self seen read) w =
    [Lock (lock_key self) 2; MapEnter;
     ZRem (key self) dels; ZAdd (key self) adds;
     SetKey (count_key self) (Py.str_of_int count)]
      ++ announce count ++ [MapExit; Unlock (lock_key self)].


(** Every member of the sorted set is the serialized form of what it
    reads back as. *)
Definition canonical (z : zset) : Prop :=
  forall v, v ∈ members z -> serialize_activity (deserialize_activity v) = v.

End Vocabulary.

Section Stored.
Context `{Serializer} `{!Clock} `{!Aggregator}.
Variable self : NotificationFeed.




End Stored.

Section Readings.
Context `{RawActivity}.

(** The number of times the loop of [mark_all] asks for the time on a list
    of entries: once for each entry to be marked seen and once for each
    entry to be marked read. *)
Definition clock_readings (seen read : Py.flag)
  (l : list AggregatedActivity) : nat :=
  length (filter (fun a => Py.is_True seen && negb (is_seen a) = true) l)
  + length (filter (fun a => Py.is_True read && negb (is_read a) = true) l).

(** An event that is neither a bound of the lock nor a bound of a batch. *)
Definition plain `{Serializer} (e : Event) : bool :=
  match e with
  | Lock _ _ | Unlock _ | MapEnter | MapExit => false
  | _ => true
  end.

(** A publish. *)
Definition is_publish `{Serializer} (e : Event) : bool :=
  match e with
  | Publish _ _ => true
  | _ => false
  end.

(** An event that writes to a sorted set. *)
Definition writes_zset `{Serializer} (e : Event) : bool :=
  match e with
  | ZRem _ _ | ZAdd _ _ | Merge _ => true
  | _ => false
  end.

End Readings.

(** ** A concrete instance

    Raw activities are numbers, the serialized form of an entry is the tuple
    of its fields, its score the time of its last update; the clock starts
    at 1000 and advances by one at each reading; the merge files the new
    activities as one fresh unseen group. *)

Module Demo.

#[export] Instance raw : RawActivity := {| Activity := Z |}.

Definition tuple : Type := string * list Z * Z * option Z * option Z.

Definition dumps (a : AggregatedActivity) : tuple :=
  (group a, activities a, updated_at a, seen_at a, read_at a).

Definition loads (t : tuple) : AggregatedActivity :=
  let '(g, l, u, s, r) := t in mkAggregated _ g l u s r.

#[export] Instance serializer : Serializer := {|
  value := tuple;
  serialize_activity := dumps;
  deserialize_activity := loads;
  get_activity_score := updated_at
|}.

#[export] Instance clock : Clock := fun k => 1000 + Z.of_nat k.

#[export] Instance aggregator : Aggregator := fun new z =>
  let a := mkAggregated _ "fresh" new (Z.of_nat (length z)) None None in
  let z' := zadd1 (dumps a, updated_at a) z in
  (z', map loads (members z')).

Definition feed : NotificationFeed := NotificationFeed_init 7.

Definition entry (g : string) (u : Z) (s : option Z) : AggregatedActivity :=
  mkAggregated _ g [] u s None.

Definition empty : World := mkWorld ∅ ∅ 0 [].

Definition store (entries : list AggregatedActivity) : World :=
  mkWorld ∅ {[ key feed := map (fun a => (dumps a, updated_at a)) entries ]} 0 [].

Definition stored (s : string) : World :=
  mkWorld {[ count_key feed := s ]} ∅ 0 [].

(** Three entries, none of them seen. *)
Definition three : list AggregatedActivity :=
  [entry "a" 1 None; entry "b" 3 None; entry "c" 2 None].

(** 99 entries updated at the times 100 to 198, the odd ones unseen. *)
Definition ninety_nine : list AggregatedActivity :=
  map (fun i => entry "g" (100 + Z.of_nat i)
                  (if Nat.odd i then None else Some 50))
      (seq 0 99).

Definition two_older : list AggregatedActivity :=
  [entry "old" 3 None; entry "older" 1 (Some 2)].

(** The feed of a class without [pubsub_format]. *)
Definition silent : NotificationFeed := init None 7.

End Demo.

(** ** Facts about the built-ins *)

Module PyFacts.
Import Py.

Lemma lstrip_solid s : solid s -> lstrip s = s.
Proof. destruct s as [|c s]; simpl; [done|]. by intros [-> _]. Qed.

Lemma rstrip_solid s : solid s -> rstrip s = s.
Proof.
  induction s as [|c s IH]; simpl; [done|].
  intros [Hc Hs]. rewrite IH by done.
  destruct s; [by rewrite Hc | done].
Qed.

Lemma strip_solid s : solid s -> strip s = s.
Proof.
  intros Hs. unfold strip. rewrite lstrip_solid by done.
  by apply rstrip_solid.
Qed.

Lemma solid_uint d : solid (NilEmpty.string_of_uint d).
Proof. induction d; simpl; auto. Qed.

Lemma digits_uint d :
  d <> Decimal.Nil -> digits (NilEmpty.string_of_uint d) = Some (Z.of_uint d).
Proof.
  intros Hd. unfold digits. rewrite NilEmpty.usu.
  destruct d; simpl; congruence.
Qed.

Lemma int_of_str_uint d :
  d <> Decimal.Nil ->
  int_of_str (NilEmpty.string_of_uint d) = Some (Z.of_uint d).
Proof.
  intros Hd. unfold int_of_str.
  rewrite strip_solid by apply solid_uint.
  destruct d; [congruence | ..];
    match goal with
    | |- _ = Some (Z.of_uint ?u) => exact (digits_uint u Hd)
    end.
Qed.

Lemma nilzero_uint d :
  d <> Decimal.Nil -> NilZero.string_of_uint d = NilEmpty.string_of_uint d.
Proof. destruct d; simpl; congruence. Qed.

(** What [str] writes, [int] reads back. *)
Lemma int_of_str_of_int n : int_of_str (str_of_int n) = Some n.
Proof.
  destruct n as [|p|p]; [reflexivity | ..]; unfold str_of_int; simpl.
  - rewrite nilzero_uint by apply Unsigned.to_uint_nonnil.
    rewrite int_of_str_uint by apply Unsigned.to_uint_nonnil.
    unfold Z.of_uint. by rewrite Unsigned.of_to.
  - rewrite nilzero_uint by apply Unsigned.to_uint_nonnil.
    unfold int_of_str.
    rewrite strip_solid by (split; [reflexivity | apply solid_uint]).
    rewrite digits_uint by apply Unsigned.to_uint_nonnil.
    unfold Z.of_uint. by rewrite Unsigned.of_to.
Qed.

(** [str] never writes the empty string. *)
Lemma truthy_str_of_int n : truthy (str_of_int n) = true.
Proof.
  destruct n as [|p|p]; [reflexivity | | reflexivity].
  unfold str_of_int; simpl.
  rewrite nilzero_uint by apply Unsigned.to_uint_nonnil.
  pose proof (Unsigned.to_uint_nonnil p) as Hp.
  destruct (Pos.to_uint p); simpl; congruence.
Qed.

End PyFacts.

(** ** Sorting *)

Section Sorting.
Context {A : Type} (key : A -> Z).

Lemma insert_desc_perm a l : insert_desc key a l ≡ₚ a :: l.
Proof.
  induction l as [|b l IH]; simpl; [done|].
  destruct (key b <=? key a); [done|].
  rewrite IH. apply perm_swap.
Qed.

Lemma sort_desc_perm l : sort_desc key l ≡ₚ l.
Proof.
  induction l as [|a l IH]; simpl; [done|].
  by rewrite insert_desc_perm, IH.
Qed.

Lemma insert_desc_descending a l :
  descending key l -> descending key (insert_desc key a l).
Proof.
  unfold descending. induction 1 as [|b l Hl IH Hb]; simpl.
  - repeat constructor.
  - destruct (Z.leb_spec (key b) (key a)) as [Hle|Hlt].
    + constructor; [by constructor|].
      constructor; [done|].
      eapply Forall_impl; [exact Hb|]. simpl. lia.
    + constructor; [done|].
      rewrite insert_desc_perm. constructor; [lia | done].
Qed.

Lemma sort_desc_descending l : descending key (sort_desc key l).
Proof.
  induction l as [|a l IH]; simpl; [constructor|].
  by apply insert_desc_descending.
Qed.

(** Entries of one key keep their order: the sort is stable. *)
Lemma insert_desc_stable k a l :
  filter (fun x => key x = k) (insert_desc key a l)
  = filter (fun x => key x = k) (a :: l).
Proof.
  induction l as [|b l IH]; simpl; [done|].
  destruct (Z.leb_spec (key b) (key a)) as [Hle|Hlt]; [done|].
  rewrite !filter_cons in *.
  repeat case_decide; simplify_eq; try lia; by rewrite ?IH.
Qed.

Lemma sort_desc_stable k l :
  filter (fun x => key x = k) (sort_desc key l)
  = filter (fun x => key x = k) l.
Proof.
  induction l as [|a l IH]; simpl; [done|].
  rewrite insert_desc_stable, !filter_cons. by rewrite IH.
Qed.

(** A list that is in order already is left as it is. *)
Lemma sort_desc_id l : descending key l -> sort_desc key l = l.
Proof.
  unfold descending. induction 1 as [|a l Hl IH Ha]; simpl; [done|].
  rewrite IH. destruct Ha as [|b l Hb _]; simpl; [done|].
  by destruct (Z.leb_spec (key b) (key a)); [|lia].
Qed.

Lemma elem_of_sort_desc x l : x ∈ sort_desc key l <-> x ∈ l.
Proof. by rewrite sort_desc_perm. Qed.

Lemma length_sort_desc l : length (sort_desc key l) = length l.
Proof. by rewrite sort_desc_perm. Qed.

End Sorting.


(** ** How the methods run *)

Section Runs.
Context `{Serializer} `{!Clock} `{!Aggregator}.
Variable self : NotificationFeed.

Lemma count_unseen_in_acc l (c : Z) :
  foldl (fun count a => if negb (is_seen a) then count + 1 else count) c l
  = c + Z.of_nat (unseen l).
Proof.
  revert c. induction l as [|a l IH]; intros c; simpl.
  { unfold unseen; simpl; lia. }
  rewrite IH. unfold unseen. rewrite filter_cons.
  destruct (decide (is_seen a = false)) as [E|E].
  - rewrite E. simpl. lia.
  - destruct (is_seen a); [simpl; lia | done].
Qed.

Lemma count_unseen_in_unseen l : count_unseen_in l = Z.of_nat (unseen l).
Proof. unfold count_unseen_in. by rewrite count_unseen_in_acc. Qed.


Lemma denormalize_count_run entries w :
  denormalize_count self entries w =
  ((sort_desc updated_at entries, top_count entries),
   mkWorld (<[count_key self := Py.str_of_int (top_count entries)]> (strings w))
           (zsets w) (ticks w)
           (log w ++ SetKey (count_key self) (Py.str_of_int (top_count entries))
                  :: announce self (top_count entries))).
Proof.
  unfold denormalize_count, announce, bind, count_unseen, redis_set,
    redis_publish, ret, emit, top_count.
  destruct (has_pubsub self); simpl; by rewrite <- ?app_assoc.
Qed.

Lemma add_many_run new w :
  let mz := merge new (zset_at (key self) w) in
  let c := top_count mz.2 in
  add_many self new w =
  (sort_desc updated_at mz.2,
   mkWorld (<[count_key self := Py.str_of_int c]> (strings w))
           (<[key self := mz.1]> (zsets w)) (ticks w)
           (log w ++ [Lock (lock_key self) 2; Merge (key self);
                      SetKey (count_key self) (Py.str_of_int c)]
                  ++ announce self c ++ announce self c
                  ++ [Unlock (lock_key self)])).
Proof.
  intros mz c. subst mz c.
  unfold add_many, with_lock, aggregated_add_many, bind, zset_at. simpl.
  destruct (merge new (default [] (zsets w !! key self))) as [z cur].
  rewrite denormalize_count_run. simpl.
  unfold announce, redis_publish, ret, emit.
  destruct (has_pubsub self); simpl; by rewrite <- ?app_assoc.
Qed.

Lemma marks_mono seen read lo hi lo' hi' a a' :
  (lo' <= lo)%nat -> (hi <= hi')%nat ->
  marks seen read lo hi a a' -> marks seen read lo' hi' a a'.
Proof.
  intros Hlo Hhi (Hg & Ha & Hu & Hs & Hr). unfold marks. split_and!; try done.
  - revert Hs. destruct (Py.is_True seen && negb (is_seen a)); [|done].
    intros (k & Hk & ->). exists k. split; [lia | done].
  - revert Hr. destruct (Py.is_True read && negb (is_read a)); [|done].
    intros (k & Hk & ->). exists k. split; [lia | done].
Qed.

(** An entry that needs no change is left as it is. *)
Lemma marks_untouched seen read lo hi a a' :
  marks seen read lo hi a a' -> needs_change seen read a = false -> a' = a.
Proof.
  intros (Hg & Ha & Hu & Hs & Hr) Hn. unfold needs_change in Hn.
  apply orb_false_iff in Hn as [Hn1 Hn2]. rewrite Hn1 in Hs. rewrite Hn2 in Hr.
  destruct a, a'; simpl in *; congruence.
Qed.

(** After the loop an entry needs no further change. *)
Lemma marks_done seen read lo hi a a' :
  marks seen read lo hi a a' -> needs_change seen read a' = false.
Proof.
  intros (_ & _ & _ & Hs & Hr). unfold needs_change, is_seen, is_read in *.
  destruct (Py.is_True seen), (Py.is_True read),
    (seen_at a), (read_at a); simpl in *;
    repeat match goal with
           | H : exists _, _ |- _ => destruct H as (? & _ & ->)
           | H : _ = _ |- _ => rewrite H
           end; done.
Qed.

(** With [seen=True] every entry is seen after the loop. *)
Lemma marks_seen read lo hi a a' :
  marks Py.PyTrue read lo hi a a' -> is_seen a' = true.
Proof.
  intros (_ & _ & _ & Hs & _). unfold is_seen in *. simpl in Hs.
  destruct (seen_at a); simpl in Hs.
  - by rewrite Hs.
  - by destruct Hs as (? & _ & ->).
Qed.

Lemma mark_one_spec seen read a w :
  let r := mark_one seen read a w in
  r.1.2 = needs_change seen read a /\
  r.2 = with_ticks (ticks r.2) w /\
  (ticks w <= ticks r.2)%nat /\
  marks seen read (ticks w) (ticks r.2) a r.1.1.
Proof.
  unfold mark_one, needs_change, marks, bind, today, ret, with_ticks,
    is_seen, is_read.
  destruct a as [g l u s r], w as [ws wz wk wl].
  destruct (Py.is_True seen), (Py.is_True read), s, r; simpl;
    repeat split; eauto with lia.
Qed.

Lemma mark_loop_cons seen read a l d w :
  mark_loop seen read (a :: l) d w =
  let r1 := mark_one seen read a w in
  let r2 := mark_loop seen read l
              (if r1.1.2 then dict_set d a r1.1.1 else d) r1.2 in
  ((r1.1.1 :: r2.1.1, r2.1.2), r2.2).
Proof.
  simpl. unfold bind.
  destruct (mark_one seen read a w) as [[a' ch] w1]. simpl.
  by destruct (mark_loop seen read l _ w1) as [[l' d'] w2].
Qed.

Lemma mark_loop_spec seen read l d w :
  let r := mark_loop seen read l d w in
  r.2 = with_ticks (ticks r.2) w /\
  (ticks w <= ticks r.2)%nat /\
  Forall2 (marks seen read (ticks w) (ticks r.2)) l r.1.1 /\
  r.1.2 = dict_of seen read d (zip l r.1.1).
Proof.
  revert d w. induction l as [|a l IH]; intros d w.
  { simpl. unfold ret, with_ticks. by destruct w. }
  rewrite mark_loop_cons.
  destruct (mark_one_spec seen read a w) as (Hch & Hw1 & Hk1 & Hm).
  set (r1 := mark_one seen read a w) in *.
  set (d1 := if r1.1.2 then dict_set d a r1.1.1 else d).
  destruct (IH d1 r1.2) as (Hw2 & Hk2 & Hf & Hd).
  set (r2 := mark_loop seen read l d1 r1.2) in *.
  cbn zeta. simpl.
  change (mark_loop seen read l _ r1.2) with r2.
  split_and!.
  - rewrite Hw2 at 1. rewrite Hw1 at 1. done.
  - lia.
  - constructor.
    + eapply marks_mono; [| |exact Hm]; lia.
    + eapply Forall2_impl; [exact Hf|].
      intros x y Hxy. eapply marks_mono; [| |exact Hxy]; lia.
  - rewrite Hd. subst d1. by rewrite Hch.
Qed.

(** The loop reads nothing of the world but the clock. *)
Lemma mark_one_clock seen read a w w' :
  ticks w = ticks w' ->
  (mark_one seen read a w).1 = (mark_one seen read a w').1 /\
  ticks (mark_one seen read a w).2 = ticks (mark_one seen read a w').2.
Proof.
  intros Hk. unfold mark_one, bind, today, ret.
  destruct (Py.is_True seen && negb (is_seen a)); simpl;
    destruct (Py.is_True read && negb (is_read _)); simpl;
    rewrite ?Hk; done.
Qed.

Lemma mark_loop_clock seen read l d w w' :
  ticks w = ticks w' ->
  (mark_loop seen read l d w).1 = (mark_loop seen read l d w').1 /\
  ticks (mark_loop seen read l d w).2 = ticks (mark_loop seen read l d w').2.
Proof.
  revert d w w'. induction l as [|a l IH]; intros d w w' Hk; [done|].
  rewrite !mark_loop_cons. cbn zeta. simpl.
  destruct (mark_one_clock seen read a w w' Hk) as [Ev Ek].
  rewrite Ev.
  destruct (IH (if (mark_one seen read a w').1.2
                then dict_set d a (mark_one seen read a w').1.1 else d)
               _ _ Ek) as [Ev' Ek'].
  by rewrite Ev', Ek'.
Qed.

Lemma mark_all_run seen read w :
  let r := marked self seen read w in
  let c := top_count r.1.1 in
  mark_all self seen read w =
  (sort_desc updated_at r.1.1,
   mkWorld (<[count_key self := Py.str_of_int c]> (strings w))
           (match r.1.2 with
            | [] => zsets w
            | _ => <[key self := swap_zset r.1.2 (zset_at (key self) w)]> (zsets w)
            end)
           (ticks r.2)
           (log w ++ [Lock (lock_key self) 2; MapEnter]
                  ++ swap_events self r.1.2
                  ++ [SetKey (count_key self) (Py.str_of_int c)]
                  ++ announce self c
                  ++ [MapExit; Unlock (lock_key self)])).
Proof.
  intros r c. subst c.
  pose (w0 := emit (Lock (lock_key self) 2) w).
  destruct (mark_loop_spec seen read (window self w) [] w0) as (Hw1 & _ & _ & _).
  destruct (mark_loop_clock seen read (window self w) [] w0 w eq_refl)
    as [Hv Hk].
  fold (marked self seen read w) in Hv, Hk. fold r in Hv, Hk.
  unfold mark_all, with_lock, with_map, getitem_slice, redis_zrevrange,
    remove_many, sorted_set_add_many, redis_zrem, redis_zadd, bind, ret.
  change (zset_at (key self) (emit (Lock (lock_key self) 2) w))
    with (zset_at (key self) w).
  change (map deserialize_activity (zrevrange max_length (zset_at (key self) w)))
    with (window self w).
  change (emit (Lock (lock_key self) 2) w) with w0.
  destruct (mark_loop seen read (window self w) [] w0) as [[es d] w1].
  simpl in Hw1, Hv, Hk. rewrite <- Hv, <- Hk. simpl. rewrite Hw1. clear.
  unfold swap_events, swap_zset, to_delete_of, to_add_of.
  destruct d as [|p d]; simpl; rewrite denormalize_count_run; simpl.
  - unfold emit; simpl. by rewrite <- !app_assoc.
  - unfold emit, zset_at; simpl. rewrite lookup_insert_eq, insert_insert_eq.
    simpl. by rewrite <- !app_assoc.
Qed.

End Runs.

(** ** The counter *)

Section Counter.
Context `{Serializer} `{!Clock} `{!Aggregator}.
Variable self : NotificationFeed.

Lemma issued_app {A} (m : M A) w (evs : list Event) :
  log (m w).2 = log w ++ evs -> issued m w = evs.
Proof. intros E. unfold issued. rewrite E. apply drop_app_length. Qed.


(** What the counter cell holds after a count was written to it. *)
Lemma get_after_set w (n : Z) :
  strings w !! count_key self = Some (Py.str_of_int n) ->
  get_denormalized_count self w = Ok n.
Proof.
  intros E. unfold get_denormalized_count, redis_get, Py.or_else. simpl.
  rewrite E, PyFacts.truthy_str_of_int. simpl.
  by rewrite PyFacts.int_of_str_of_int.
Qed.

(** C7. A user whose counter cell was never written, so that its key is
    absent, has an unseen count of 0. *)
Theorem get_denormalized_count_absent w :
  strings w !! count_key self = None ->
  get_denormalized_count self w = Ok 0.
Proof.
  intros E. unfold get_denormalized_count, redis_get. simpl. by rewrite E.
Qed.

(** C2, as amended.  When the counter cell holds a value that [int] does
    not parse, [get_denormalized_count] raises [ValueError]; the one
    exception is the empty string, which [or 0] turns into 0. *)
Theorem get_denormalized_count_malformed w s :
  strings w !! count_key self = Some s ->
  Py.int_of_str s = None ->
  get_denormalized_count self w =
  if Py.truthy s then Raise ValueError else Ok 0.
Proof.
  intros E Hs. unfold get_denormalized_count, redis_get, Py.or_else. simpl.
  rewrite E. destruct (Py.truthy s); simpl; [by rewrite Hs | done].
Qed.

(** C8, as amended.  [denormalize_count] sorts the list it is given in
    place: the caller finds the same entries afterwards, none of them
    modified, latest [updated_at] first and entries of equal [updated_at]
    in their former order.  The count is the number of unseen entries among
    the first [max_length] of them.  Of Redis only the counter cell
    changes, and the only commands issued are the write of the count and
    its publish. *)
Theorem denormalize_count_effects entries w :
  let r := denormalize_count self entries w in
  r.1.1 ≡ₚ entries /\
  descending updated_at r.1.1 /\
  (forall t, filter (fun a => updated_at a = t) r.1.1
             = filter (fun a => updated_at a = t) entries) /\
  r.1.2 = Z.of_nat (unseen (take max_length r.1.1)) /\
  strings r.2 = <[count_key self := Py.str_of_int r.1.2]> (strings w) /\
  zsets r.2 = zsets w /\
  ticks r.2 = ticks w /\
  log r.2 = log w ++ SetKey (count_key self) (Py.str_of_int r.1.2)
                  :: announce self r.1.2.
Proof.
  rewrite denormalize_count_run. simpl. split_and!; try done.
  - apply sort_desc_perm.
  - apply sort_desc_descending.
  - intros t. apply sort_desc_stable.
  - apply count_unseen_in_unseen.
Qed.

End Counter.

(** ** The channel *)

Section Channel.
Context `{Serializer} `{!Clock} `{!Aggregator}.
Variable self : NotificationFeed.

Lemma denormalize_count_issued entries w :
  issued (denormalize_count self entries) w =
  SetKey (count_key self) (Py.str_of_int (top_count entries))
    :: announce self (top_count entries).
Proof. apply issued_app. by rewrite denormalize_count_run. Qed.

Lemma add_many_issued new w :
  let c := top_count (merge new (zset_at (key self) w)).2 in
  issued (add_many self new) w =
  [Lock (lock_key self) 2; Merge (key self);
   SetKey (count_key self) (Py.str_of_int c)]
    ++ announce self c ++ announce self c ++ [Unlock (lock_key self)].
Proof. intros c. apply issued_app. by rewrite add_many_run. Qed.

Lemma mark_all_issued seen read w :
  let r := marked self seen read w in
  let c := top_count r.1.1 in
  issued (mark_all self seen read) w =
  [Lock (lock_key self) 2; MapEnter]
    ++ swap_events self r.1.2
    ++ [SetKey (count_key self) (Py.str_of_int c)]
    ++ announce self c
    ++ [MapExit; Unlock (lock_key self)].
Proof. intros r c. apply issued_app. by rewrite mark_all_run. Qed.

(** Going through the ways a short log splits around a publish. *)
Ltac scan_log :=
  let pre := fresh "pre" in
  let E := fresh "E" in
  intros pre ? ? ? E;
  repeat (destruct pre as [|? pre]; simplify_eq/=;
          try (split_and!; [done | done | set_solver])).

(** C6. In [add_many] and in [mark_all] the counter cell is written once,
    the value written is the one the cell holds when the call returns, and
    every publish of the call carries that value and is issued after the
    write. *)
Theorem publish_follows_write :
  (forall new w,
      exists v, strings (add_many self new w).2 !! count_key self = Some v /\
                publish_after_write self (count_key self)
                  (issued (add_many self new) w) v) /\
  (forall seen read w,
      exists v, strings (mark_all self seen read w).2 !! count_key self = Some v /\
                publish_after_write self (count_key self)
                  (issued (mark_all self seen read) w) v).
Proof.
  split.
  - intros new w. rewrite add_many_issued. rewrite add_many_run. simpl.
    eexists. split; [apply lookup_insert_eq|].
    unfold publish_after_write, announce.
    destruct (has_pubsub self); simpl; (split; [by case_decide | scan_log]).
  - intros seen read w. rewrite mark_all_issued. rewrite mark_all_run. simpl.
    eexists. split; [apply lookup_insert_eq|].
    unfold publish_after_write, announce, swap_events.
    destruct (has_pubsub self), ((marked self seen read w).1.2); simpl;
      (split; [by case_decide | scan_log]).
Qed.

(** C10. On a feed with a channel, [denormalize_count] publishes the count
    once; [add_many] publishes it twice, the publish of [denormalize_count]
    and one of its own, both with the count that was written; [mark_all]
    publishes it once. *)
Theorem publish_counts : has_pubsub self = true -> publish_tally self.
Proof.
  intros Hp. unfold publish_tally. split_and!.
  - intros entries w. rewrite denormalize_count_issued.
    rewrite denormalize_count_run. unfold announce. by rewrite Hp.
  - intros new w. rewrite add_many_issued, add_many_run. simpl.
    eexists. split; [apply lookup_insert_eq|].
    unfold announce. by rewrite Hp.
  - intros seen read w. rewrite mark_all_issued, mark_all_run. simpl.
    eexists. split; [apply lookup_insert_eq|].
    unfold announce, swap_events. rewrite Hp.
    by destruct ((marked self seen read w).1.2).
Qed.

(** Both operations run between the acquisition of the lock of the feed,
    with its timeout of 2, and its release. *)
Lemma operations_under_lock :
  (forall new w,
      exists body,
        issued (add_many self new) w
        = Lock (lock_key self) 2 :: body ++ [Unlock (lock_key self)] /\
        Forall (fun e => forall k t, e <> Lock k t /\ e <> Unlock k) body) /\
  (forall seen read w,
      exists body,
        issued (mark_all self seen read) w
        = Lock (lock_key self) 2 :: body ++ [Unlock (lock_key self)] /\
        Forall (fun e => forall k t, e <> Lock k t /\ e <> Unlock k) body).
Proof.
  split.
  - intros new w. rewrite add_many_issued.
    set (c := top_count (merge new (zset_at (key self) w)).2).
    exists ([Merge (key self); SetKey (count_key self) (Py.str_of_int c)]
              ++ announce self c ++ announce self c).
    unfold announce.
    destruct (has_pubsub self); simpl;
      (split; [reflexivity | repeat constructor; discriminate]).
  - intros seen read w. rewrite mark_all_issued.
    set (r := marked self seen read w). set (c := top_count r.1.1).
    exists ([MapEnter] ++ swap_events self r.1.2
              ++ [SetKey (count_key self) (Py.str_of_int c)]
              ++ announce self c ++ [MapExit]).
    unfold announce, swap_events.
    destruct (has_pubsub self), (r.1.2); simpl;
      (split; [reflexivity | repeat constructor; discriminate]).
Qed.

End Channel.

(** ** Sorted sets and dictionaries *)

Section Containers.
Context `{Serializer}.

Lemma elem_of_zrem p vs (z : zset) : p ∈ zrem vs z <-> p ∈ z /\ p.1 ∉ vs.
Proof. unfold zrem. rewrite list_elem_of_filter. tauto. Qed.

Lemma members_zrem v vs (z : zset) :
  v ∈ members (zrem vs z) -> v ∈ members z /\ v ∉ vs.
Proof.
  unfold members. rewrite !list_elem_of_fmap.
  intros (p & -> & Hp). apply elem_of_zrem in Hp as [Hp Hv].
  split; [by exists p | done].
Qed.

Lemma elem_of_zadd1 p q (z : zset) :
  p ∈ zadd1 q z <-> p = q \/ (p ∈ z /\ p.1 <> q.1).
Proof.
  unfold zadd1. rewrite elem_of_cons, list_elem_of_filter. tauto.
Qed.

Lemma members_zadd v pairs (z : zset) :
  v ∈ members (zadd pairs z) -> v ∈ members z \/ v ∈ map fst pairs.
Proof.
  unfold zadd. revert z. induction pairs as [|q pairs IH]; intros z; simpl.
  { by left. }
  intros Hv. apply IH in Hv as [Hv|Hv]; [|right; by right].
  unfold members in Hv. apply list_elem_of_fmap in Hv as (p & -> & Hp).
  apply elem_of_zadd1 in Hp as [->|[Hp _]].
  - right. by left.
  - left. unfold members. apply list_elem_of_fmap. by exists p.
Qed.

(** A pair that is added stays, if no other pair of the batch has its
    member. *)
Lemma elem_of_zadd p pairs (z : zset) :
  (forall q, q ∈ pairs -> q.1 = p.1 -> q = p) ->
  p ∈ z \/ p ∈ pairs -> p ∈ zadd pairs z.
Proof.
  unfold zadd. revert z. induction pairs as [|q pairs IH]; intros z Hf; simpl.
  { intros [Hp|Hp]; [done | by apply elem_of_nil in Hp]. }
  intros Hp. apply IH.
  { intros q' Hq'. apply Hf. by right. }
  rewrite elem_of_zadd1.
  destruct Hp as [Hp|Hp].
  - left. destruct (decide (q.1 = p.1)) as [E|E].
    + left. symmetry. apply Hf; [by left | done].
    + right. split; [done | congruence].
  - apply elem_of_cons in Hp as [->|Hp]; [left; by left | by right].
Qed.

Lemma zrevrange_members n v (z : zset) : v ∈ zrevrange n z -> v ∈ members z.
Proof.
  unfold zrevrange, members. rewrite !list_elem_of_fmap.
  intros (p & -> & Hp). exists p. split; [done|].
  apply elem_of_take in Hp as (i & Hp & _).
  apply list_elem_of_lookup_2 in Hp. by apply elem_of_sort_desc in Hp.
Qed.

(** The commands keep a sorted set free of double members. *)
Lemma filter_NoDup (P : value * Z -> Prop) `{!forall p, Decision (P p)}
  (z : zset) :
  NoDup (members z) -> NoDup (members (filter P z)).
Proof.
  unfold members. intros Hz. eapply sublist_NoDup; [exact Hz|].
  apply fmap_sublist, sublist_filter.
Qed.

Lemma zrem_NoDup vs (z : zset) :
  NoDup (members z) -> NoDup (members (zrem vs z)).
Proof. apply filter_NoDup. Qed.

Lemma zadd1_NoDup p (z : zset) :
  NoDup (members z) -> NoDup (members (zadd1 p z)).
Proof.
  intros Hz. unfold zadd1. change (NoDup (p.1 :: members (filter (fun q => q.1 ≠ p.1) z))).
  apply NoDup_cons. split; [|by apply filter_NoDup].
  unfold members. intros Hin. apply list_elem_of_fmap in Hin as (q & Eq & Hq).
  apply list_elem_of_filter in Hq as [Hq _]. by apply Hq.
Qed.

Lemma zadd_NoDup pairs (z : zset) :
  NoDup (members z) -> NoDup (members (zadd pairs z)).
Proof.
  unfold zadd. revert z. induction pairs as [|p pairs IH]; intros z Hz; simpl.
  - done.
  - apply IH. by apply zadd1_NoDup.
Qed.

(** A range as long as the set gives all of it. *)
Lemma zrevrange_all n v (z : zset) :
  (length z <= n)%nat -> v ∈ members z -> v ∈ zrevrange n z.
Proof.
  intros Hn. unfold zrevrange.
  rewrite take_ge by (by rewrite length_sort_desc).
  unfold members. rewrite !list_elem_of_fmap.
  intros (p & -> & Hp). exists p. split; [done|]. by apply elem_of_sort_desc.
Qed.

Context {K V : Type} `{EqDecision K}.

Lemma elem_of_dict_set (d : list (K * V)) k v p :
  p ∈ dict_set d k v -> p ∈ d \/ p = (k, v).
Proof.
  induction d as [|[k' v'] d IH]; simpl.
  { rewrite list_elem_of_singleton. by right. }
  case_decide; subst; rewrite !elem_of_cons.
  - intros [->|Hp]; [by right | left; by right].
  - intros [->|Hp]; [left; by left|].
    destruct (IH Hp) as [Hd| ->]; [left; by right | by right].
Qed.

Lemma dict_set_binds (d : list (K * V)) k v : (k, v) ∈ dict_set d k v.
Proof.
  induction d as [|[k' v'] d IH]; simpl; [by left|].
  case_decide; subst; [by left | by right].
Qed.

Lemma dict_set_keeps (d : list (K * V)) k v k' :
  k' ∈ map fst d -> k' ∈ map fst (dict_set d k v).
Proof.
  induction d as [|[k0 v0] d IH]; simpl.
  { by intros ?%elem_of_nil. }
  case_decide; subst; simpl; rewrite !elem_of_cons.
  - done.
  - intros [->|Hk]; [by left | right; by apply IH].
Qed.

End Containers.

(** ** The loop of [mark_all] *)

Section Marking.
Context `{Serializer} `{!Clock} `{!Aggregator}.
Variable self : NotificationFeed.
Variables seen read : Py.flag.

Lemma dict_of_elem d pairs p :
  p ∈ dict_of seen read d pairs ->
  p ∈ d \/ (p ∈ pairs /\ needs_change seen read p.1 = true).
Proof.
  unfold dict_of. revert d.
  induction pairs as [|[o n] pairs IH]; intros d; simpl.
  { by left. }
  intros Hp. apply IH in Hp as [Hp|[Hp Hn]]; [|right; split; [by right | done]].
  destruct (needs_change seen read o) eqn:Hq; [|by left].
  apply elem_of_dict_set in Hp as [Hp| ->]; [by left|].
  right. split; [by left | done].
Qed.

Lemma dict_of_key d pairs o :
  o ∈ map fst d \/ (o ∈ map fst pairs /\ needs_change seen read o = true) ->
  o ∈ map fst (dict_of seen read d pairs).
Proof.
  unfold dict_of. revert d. induction pairs as [|q pairs IH]; intros d; simpl.
  { intros [Ho|[Ho _]]; [done | by apply elem_of_nil in Ho]. }
  intros [Ho|[Ho Hn]]; apply IH.
  - left. destruct (needs_change seen read q.1); [by apply dict_set_keeps | done].
  - apply elem_of_cons in Ho as [->|Ho]; [left | right; by split].
    rewrite Hn. apply list_elem_of_fmap. exists (q.1, q.2).
    split; [done | apply dict_set_binds].
Qed.

Lemma dict_of_idle d pairs :
  (forall p, p ∈ pairs -> needs_change seen read p.1 = false) ->
  dict_of seen read d pairs = d.
Proof.
  unfold dict_of. revert d. induction pairs as [|q pairs IH]; intros d Hn; simpl.
  { done. }
  rewrite (Hn q) by by left. apply IH. intros p Hp. apply Hn. by right.
Qed.

Lemma mark_loop_facts entries w :
  let r := mark_loop seen read entries [] w in
  Forall2 (marks seen read (ticks w) (ticks r.2)) entries r.1.1 /\
  (forall i a a',
      entries !! i = Some a -> r.1.1 !! i = Some a' ->
      needs_change seen read a = false -> a' = a) /\
  (forall old new,
      (old, new) ∈ r.1.2 ->
      needs_change seen read old = true /\
      exists i, entries !! i = Some old /\ r.1.1 !! i = Some new) /\
  (forall a,
      a ∈ entries ->
      (a ∈ map fst r.1.2 <-> needs_change seen read a = true)) /\
  strings r.2 = strings w /\ zsets r.2 = zsets w /\ log r.2 = log w.
Proof.
  destruct (mark_loop_spec seen read entries [] w) as (Hw & Hk & Hf & Hd).
  cbn zeta. set (r := mark_loop seen read entries [] w) in *.
  split_and!.
  - done.
  - intros i a a' Ha Ha' Hn.
    eapply marks_untouched; [|exact Hn].
    eapply Forall2_lookup_lr; eauto.
  - intros old new Hp. rewrite Hd in Hp.
    apply dict_of_elem in Hp as [Hp|[Hp Hn]]; [by apply elem_of_nil in Hp|].
    split; [done|].
    apply list_elem_of_lookup in Hp as [i Hi]. exists i.
    by apply lookup_zip_Some in Hi.
  - intros a Ha. rewrite Hd. split.
    + intros Hk'. apply list_elem_of_fmap in Hk' as ([o n] & -> & Hp).
      apply dict_of_elem in Hp as [Hp|[_ Hn]]; [by apply elem_of_nil in Hp|done].
    + intros Hn. apply dict_of_key. right. split; [|done].
      change (map fst (zip entries r.1.1)) with ((zip entries r.1.1).*1).
      rewrite fst_zip; [done|]. by rewrite (Forall2_length _ _ _ Hf).
  - by rewrite Hw.
  - by rewrite Hw.
  - by rewrite Hw.
Qed.

Lemma marks_all_untouched lo hi l l' :
  Forall2 (marks seen read lo hi) l l' ->
  (forall a, a ∈ l -> needs_change seen read a = false) ->
  l' = l.
Proof.
  induction 1 as [|a a' l l' Hm Hf IH]; intros Hn; [done|]. f_equal.
  - eapply marks_untouched; [exact Hm|]. apply Hn. by left.
  - apply IH. intros b Hb. apply Hn. by right.
Qed.

(** If nothing needs a change the loop gives the entries back and an empty
    [update_dict]. *)
Lemma mark_loop_idle entries w :
  (forall a, a ∈ entries -> needs_change seen read a = false) ->
  (mark_loop seen read entries [] w).1 = (entries, []).
Proof.
  intros Hn.
  destruct (mark_loop_spec seen read entries [] w) as (_ & _ & Hf & Hd).
  cbn zeta in *.
  destruct (mark_loop seen read entries [] w) as [[l' d] w']. simpl in *.
  apply marks_all_untouched in Hf; [|done]. subst l'. rewrite Hd.
  f_equal. apply dict_of_idle. intros [o n] Hp. simpl.
  apply Hn. by apply elem_of_zip_l in Hp.
Qed.

(** C5. [mark_all] gives [seen_at] the time of the clock exactly on the
    entries it reads for which [seen] is asked and that are not seen, and
    [read_at] exactly on those for which [read] is asked and that are not
    read; nothing else of an entry changes, so an entry with neither is
    what it was.  [update_dict] holds the changed entries and no others; the
    members removed and the pairs added are taken from it, the loop itself
    leaves Redis as it is, and the entries returned are those of the
    loop. *)
Theorem mark_all_marks_unmarked w :
  let entries := window self w in
  let r := marked self seen read w in
  Forall2 (marks seen read (ticks w) (ticks r.2)) entries r.1.1 /\
  (forall i a a',
      entries !! i = Some a -> r.1.1 !! i = Some a' ->
      needs_change seen read a = false -> a' = a) /\
  (forall old new,
      (old, new) ∈ r.1.2 ->
      needs_change seen read old = true /\
      exists i, entries !! i = Some old /\ r.1.1 !! i = Some new) /\
  (forall a,
      a ∈ entries ->
      (a ∈ map fst r.1.2 <-> needs_change seen read a = true)) /\
  (strings r.2 = strings w /\ zsets r.2 = zsets w /\ log r.2 = log w) /\
  (mark_all self seen read w).1 ≡ₚ r.1.1 /\
  issued (mark_all self seen read) w =
  [Lock (lock_key self) 2; MapEnter]
    ++ swap_events self r.1.2
    ++ [SetKey (count_key self) (Py.str_of_int (top_count r.1.1))]
    ++ announce self (top_count r.1.1)
    ++ [MapExit; Unlock (lock_key self)].
Proof.
  intros entries r.
  destruct (mark_loop_facts entries w)
    as (Hmarks & Hsame & Hdict & Hkeys & Hs & Hz & Hl).
  split_and!; try done.
  - rewrite mark_all_run. simpl. apply sort_desc_perm.
  - apply mark_all_issued.
Qed.

End Marking.

(** ** The swap of [mark_all] *)

Section Swap.
Context `{Serializer} `{!Clock} `{!Aggregator}.
Variable self : NotificationFeed.

Lemma serialize_inj `{!Lossless} a b :
  serialize_activity a = serialize_activity b -> a = b.
Proof.
  intros E. rewrite <- (deserialize_serialize a), <- (deserialize_serialize b).
  by rewrite E.
Qed.

(** The sorted set of the feed after [mark_all]. *)
Lemma mark_all_zset seen read w :
  let d := (marked self seen read w).1.2 in
  zset_at (key self) (mark_all self seen read w).2 =
  match d with
  | [] => zset_at (key self) w
  | _ => swap_zset d (zset_at (key self) w)
  end.
Proof.
  intros d. rewrite mark_all_run. unfold zset_at at 1. simpl. fold d.
  destruct d; [done|]. by rewrite lookup_insert_eq.
Qed.

Lemma mark_all_ticks seen read w :
  ticks (mark_all self seen read w).2 = ticks (marked self seen read w).2.
Proof. by rewrite mark_all_run. Qed.

Lemma elem_of_to_delete_of d o :
  o ∈ map fst d -> serialize_activity o ∈ to_delete_of d.
Proof. intros Ho. unfold to_delete_of. apply list_elem_of_fmap. by exists o. Qed.

Lemma elem_of_to_add_of d (o n : AggregatedActivity) :
  (o, n) ∈ d -> (serialize_activity n, get_activity_score n) ∈ to_add_of d.
Proof. intros Hp. unfold to_add_of. apply list_elem_of_fmap. by exists (o, n). Qed.

Lemma to_add_of_inv d v :
  v ∈ map fst (to_add_of d) ->
  exists o n, (o, n) ∈ d /\ v = serialize_activity n.
Proof.
  unfold to_add_of. intros Hv.
  apply list_elem_of_fmap in Hv as (q & -> & Hq).
  apply list_elem_of_fmap in Hq as ([o n] & -> & Hp). by exists o, n.
Qed.

(** What a changed entry of the window becomes. *)
Lemma marked_changed seen read w old :
  old ∈ window self w ->
  needs_change seen read old = true ->
  let r := marked self seen read w in
  exists new,
    (old, new) ∈ r.1.2 /\ new ∈ r.1.1 /\
    marks seen read (ticks w) (ticks r.2) old new.
Proof.
  intros Ho Hn r.
  destruct (mark_loop_facts seen read (window self w) w)
    as (Hmarks & _ & Hdict & Hkeys & _).
  fold (marked self seen read w) in Hmarks, Hdict, Hkeys. fold r in Hmarks, Hdict, Hkeys.
  apply (Hkeys old Ho) in Hn.
  apply list_elem_of_fmap in Hn as ([o new] & -> & Hp). simpl in *.
  exists new. destruct (Hdict _ _ Hp) as (_ & i & Hi & Hi').
  split_and!; [done | by eapply list_elem_of_lookup_2 |].
  eapply Forall2_lookup_lr; eauto.
Qed.

(** What an entry of [update_dict] is. *)
Lemma marked_dict seen read w o n :
  let r := marked self seen read w in
  (o, n) ∈ r.1.2 ->
  o ∈ window self w /\ n ∈ r.1.1 /\ needs_change seen read o = true /\
  marks seen read (ticks w) (ticks r.2) o n.
Proof.
  intros r Hp.
  destruct (mark_loop_facts seen read (window self w) w)
    as (Hmarks & _ & Hdict & _).
  fold (marked self seen read w) in Hmarks, Hdict. fold r in Hmarks, Hdict.
  destruct (Hdict _ _ Hp) as (Hn & i & Hi & Hi').
  split_and!; [by eapply list_elem_of_lookup_2 | by eapply list_elem_of_lookup_2
              | done | eapply Forall2_lookup_lr; eauto].
Qed.

(** C3. Let the members of the feed be canonical and serialization
    lossless.  For every entry that [mark_all] reads and changes, the
    serialized form it had is no member of the sorted set when [mark_all]
    returns, and the serialized form of the changed entry is, with its
    score; the old form is among the members of the one ZREM and the new
    pair among the pairs of the one ZADD, which are issued in this order
    inside the batch that [self.map()] opens. *)
Theorem mark_all_swaps_values `{!Lossless} seen read w :
  canonical (zset_at (key self) w) ->
  forall v,
    v ∈ zrevrange max_length (zset_at (key self) w) ->
    needs_change seen read (deserialize_activity v) = true ->
    swapped self seen read w v.
Proof.
  intros Hcan v Hv Hn. unfold swapped. cbn zeta.
  set (old := deserialize_activity v) in *.
  assert (Ho : old ∈ window self w).
  { unfold window. apply list_elem_of_fmap. by exists v. }
  assert (Ev : serialize_activity old = v).
  { apply Hcan. by eapply zrevrange_members. }
  destruct (marked_changed seen read w old Ho Hn) as (new & Hp & Hnew & Hm).
  rewrite mark_all_zset, mark_all_ticks, mark_all_issued.
  pose proof (marked_dict seen read w) as Hdict. cbn zeta in Hdict.
  set (d := (marked self seen read w).1.2) in *.
  assert (Hdel : v ∈ to_delete_of d).
  { rewrite <- Ev. apply elem_of_to_delete_of.
    apply list_elem_of_fmap. by exists (old, new). }
  assert (Hne : d <> []) by (intros E; rewrite E in Hp; by apply elem_of_nil in Hp).
  destruct d as [|p d'] eqn:Ed; [done|].
  rewrite <- Ed in *. clear Ed Hne. split.
  - intros Hin. unfold swap_zset in Hin.
    apply members_zadd in Hin as [Hin|Hin].
    + apply members_zrem in Hin as [_ Hin]. done.
    + apply to_add_of_inv in Hin as (o & n & Hon & Hvn).
      destruct (Hdict _ _ Hon) as (_ & _ & _ & Hmn).
      apply marks_done in Hmn.
      assert (n = old) as ->.
      { unfold old. rewrite Hvn. by rewrite deserialize_serialize. }
      congruence.
  - exists new, (to_delete_of d), (to_add_of d). split_and!.
    + done.
    + rewrite mark_all_run. simpl. by apply elem_of_sort_desc.
    + unfold swap_zset. apply elem_of_zadd.
      * intros q Hq Eq.
        apply list_elem_of_fmap in Hq as ([o n] & -> & Hon). simpl in *.
        apply serialize_inj in Eq. by subst n.
      * right. by eapply elem_of_to_add_of.
    + done.
    + by eapply elem_of_to_add_of.
    + unfold swap_events. destruct d; [by apply elem_of_nil in Hp | done].
Qed.

End Swap.

(** ** Marking twice *)

Section Twice.
Context `{Serializer} `{!Clock} `{!Aggregator}.
Variable self : NotificationFeed.

Lemma unseen_all_seen l :
  (forall a, a ∈ l -> is_seen a = true) -> unseen l = 0%nat.
Proof.
  unfold unseen. induction l as [|a l IH]; intros Hs; [done|].
  rewrite filter_cons. rewrite (Hs a) by by left.
  case_decide; [done|]. apply IH. intros b Hb. apply Hs. by right.
Qed.

Lemma top_count_all_seen l :
  (forall a, a ∈ l -> is_seen a = true) -> top_count l = 0.
Proof.
  intros Hs. unfold top_count. rewrite count_unseen_in_unseen.
  rewrite unseen_all_seen; [done|].
  intros a Ha. apply Hs. apply elem_of_take in Ha as (i & Ha & _).
  apply list_elem_of_lookup_2 in Ha. by apply elem_of_sort_desc in Ha.
Qed.

(** With [seen=True] the loop leaves every entry seen. *)
Lemma marked_seen read w a :
  a ∈ (marked self Py.PyTrue read w).1.1 -> is_seen a = true.
Proof.
  intros Ha.
  destruct (mark_loop_facts Py.PyTrue read (window self w) w) as (Hmarks & _).
  fold (marked self Py.PyTrue read w) in Hmarks.
  apply list_elem_of_lookup in Ha as [i Hi].
  destruct (Forall2_lookup_r _ _ _ _ _ Hmarks Hi) as (o & _ & Hm).
  by eapply marks_seen.
Qed.

(** A feed within its capacity: what [mark_all] reads after a call is
    among the entries that call returned. *)
Lemma window_within_capacity `{!Lossless} seen read w :
  canonical (zset_at (key self) w) ->
  (length (zset_at (key self) w) <= max_length)%nat ->
  window self (mark_all self seen read w).2 ⊆ (mark_all self seen read w).1.
Proof.
  intros Hcan Hlen a Ha.
  unfold window in Ha. apply list_elem_of_fmap in Ha as (v & -> & Hv).
  apply zrevrange_members in Hv. rewrite mark_all_zset in Hv.
  rewrite mark_all_run. simpl. apply elem_of_sort_desc.
  destruct (mark_loop_facts seen read (window self w) w)
    as (Hmarks & Hsame & _ & Hkeys & _).
  pose proof (marked_dict self seen read w) as Hdict.
  fold (marked self seen read w) in Hmarks, Hsame, Hkeys. cbn zeta in Hdict.
  set (r := marked self seen read w) in *.
  assert (Hkept : forall u, u ∈ members (zset_at (key self) w) ->
                    u ∉ to_delete_of r.1.2 ->
                    deserialize_activity u ∈ r.1.1).
  { intros u Hu Hnd.
    assert (Hw : deserialize_activity u ∈ window self w).
    { unfold window. apply list_elem_of_fmap. exists u.
      split; [done | by apply zrevrange_all]. }
    destruct (needs_change seen read (deserialize_activity u)) eqn:Hn.
    - exfalso. apply Hnd. rewrite <- (Hcan u Hu).
      apply elem_of_to_delete_of. by apply Hkeys.
    - apply list_elem_of_lookup in Hw as [i Hi].
      destruct (Forall2_lookup_l _ _ _ _ _ Hmarks Hi) as (a' & Hi' & _).
      rewrite <- (Hsame i _ _ Hi Hi' Hn). by eapply list_elem_of_lookup_2. }
  destruct (r.1.2) as [|p d] eqn:Ed.
  - apply Hkept; [done|]. unfold to_delete_of. simpl. apply not_elem_of_nil.
  - rewrite <- Ed in *. unfold swap_zset in Hv.
    apply members_zadd in Hv as [Hv|Hv].
    + apply members_zrem in Hv as [Hv Hnd]. by apply Hkept.
    + apply to_add_of_inv in Hv as (o & n & Hon & ->).
      rewrite deserialize_serialize. by destruct (Hdict _ _ Hon) as (_ & ? & _).
Qed.


End Twice.

(** ** The keys of a feed *)

Module PyFormat.
Import Py.

Lemma lacks_app c s t : lacks c (s +:+ t) = lacks c s && lacks c t.
Proof.
  induction s as [|d s IH]; simpl; [done|].
  rewrite IH. by rewrite andb_assoc.
Qed.

Lemma prefix_self pat s : String.prefix pat (pat +:+ s) = true.
Proof.
  induction pat as [|c pat IH]; simpl; [by destruct s|].
  by destruct (ascii_dec c c).
Qed.

Lemma skip_self pat s : skip (String.length pat) (pat +:+ s) = s.
Proof. induction pat as [|c pat IH]; simpl; [by destruct s | done]. Qed.

Lemma replace_first_skip c p rep pre s :
  lacks c pre = true ->
  replace_first (String c p) rep (pre +:+ s)
  = pre +:+ replace_first (String c p) rep s.
Proof.
  induction pre as [|d pre IH]; simpl; [done|].
  intros [Hd Hpre]%andb_true_iff.
  destruct (ascii_dec c d) as [->|_].
  - by rewrite Ascii.eqb_refl in Hd.
  - by rewrite IH.
Qed.

Lemma replace_first_none c p rep s :
  lacks c s = true -> replace_first (String c p) rep s = s.
Proof.
  induction s as [|d s IH]; simpl; [done|].
  intros [Hd Hs]%andb_true_iff.
  destruct (ascii_dec c d) as [->|_].
  - by rewrite Ascii.eqb_refl in Hd.
  - by rewrite IH.
Qed.

(** The placeholder, met after a text without its first character, is
    replaced and the rest is kept. *)
Lemma replace_first_at c p rep pre post :
  lacks c pre = true ->
  replace_first (String c p) rep (pre +:+ String c p +:+ post)
  = pre +:+ rep +:+ post.
Proof.
  intros Hpre. rewrite replace_first_skip by done. f_equal.
  change (String c p +:+ post) with (String c (p +:+ post)).
  cbn [replace_first].
  change (String c (p +:+ post)) with (String c p +:+ post).
  by rewrite prefix_self, skip_self.
Qed.

Lemma lacks_percent_uint d : lacks "%" (NilEmpty.string_of_uint d) = true.
Proof. induction d; simpl; auto. Qed.

(** [str] of an integer has no [%] in it. *)
Lemma lacks_percent_str n : lacks "%" (str_of_int n) = true.
Proof.
  destruct n as [|p|p]; [reflexivity | ..]; unfold str_of_int; simpl.
  - rewrite PyFacts.nilzero_uint by apply Unsigned.to_uint_nonnil.
    apply lacks_percent_uint.
  - rewrite PyFacts.nilzero_uint by apply Unsigned.to_uint_nonnil.
    apply lacks_percent_uint.
Qed.

Lemma str_of_int_inj a b : str_of_int a = str_of_int b -> a = b.
Proof.
  intros E. pose proof (PyFacts.int_of_str_of_int a) as Ha.
  rewrite E, PyFacts.int_of_str_of_int in Ha. congruence.
Qed.

Lemma list_of_app s t :
  list_ascii_of_string (s +:+ t)
  = (list_ascii_of_string s ++ list_ascii_of_string t)%list.
Proof. induction s as [|c s IH]; simpl; [done | by rewrite IH]. Qed.

Lemma app_inv_tail s1 s2 t : s1 +:+ t = s2 +:+ t -> s1 = s2.
Proof.
  intros E. apply (f_equal list_ascii_of_string) in E.
  rewrite !list_of_app in E. apply List.app_inv_tail in E.
  rewrite <- (string_of_list_ascii_of_string s1),
          <- (string_of_list_ascii_of_string s2).
  by rewrite E.
Qed.

Lemma app_inv_head s t1 t2 : s +:+ t1 = s +:+ t2 -> t1 = t2.
Proof. induction s as [|c s IH]; simpl; [done|]. intros [= E]. auto. Qed.

(** A text with the number of the user in it tells the users apart. *)
Lemma framed_inj pre post a b :
  pre +:+ str_of_int a +:+ post = pre +:+ str_of_int b +:+ post -> a = b.
Proof.
  intros E. apply app_inv_head, app_inv_tail in E. by apply str_of_int_inj.
Qed.

End PyFormat.

Section Keys.

Lemma append_empty s : s +:+ "" = s.
Proof.
  induction s as [|c s IH]; [done|].
  change (String c (s +:+ "") = String c s). by rewrite IH.
Qed.

Lemma append_assoc s t u : (s +:+ t) +:+ u = s +:+ (t +:+ u).
Proof.
  induction s as [|c s IH]; [done|].
  change (String c ((s +:+ t) +:+ u) = String c (s +:+ (t +:+ u))).
  by rewrite IH.
Qed.

Lemma percent_named pre post n :
  Py.lacks "%" pre = true -> Py.lacks "%" post = true ->
  Py.percent (pre +:+ "%(user_id)s" +:+ post) (Py.Mapping n)
  = pre +:+ Py.str_of_int n +:+ post.
Proof.
  intros Hpre Hpost. unfold Py.percent.
  rewrite PyFormat.replace_first_at by done.
  apply PyFormat.replace_first_none.
  by rewrite !PyFormat.lacks_app, Hpre, Hpost, PyFormat.lacks_percent_str.
Qed.

Lemma percent_scalar pre post n :
  Py.lacks "%" pre = true ->
  Py.percent (pre +:+ "%s" +:+ post) (Py.Scalar n)
  = pre +:+ Py.str_of_int n +:+ post.
Proof. intros Hpre. unfold Py.percent. by apply PyFormat.replace_first_at. Qed.

(** A dictionary given to [%s] is printed whole. *)
Lemma percent_whole pre post n :
  Py.lacks "%" pre = true -> Py.lacks "%" post = true ->
  Py.percent (pre +:+ "%s" +:+ post) (Py.Mapping n)
  = pre +:+ Py.str_of_operand (Py.Mapping n) +:+ post.
Proof.
  intros Hpre Hpost. unfold Py.percent.
  rewrite (PyFormat.replace_first_skip "%" "(user_id)s") by done.
  assert (E : Py.replace_first "%(user_id)s" (Py.str_of_int n) ("%s" +:+ post)
              = "%s" +:+ post).
  { simpl. by rewrite (PyFormat.replace_first_none "%" "(user_id)s"). }
  rewrite E. by apply PyFormat.replace_first_at.
Qed.

Lemma init_keys_eq uid :
  let self := NotificationFeed_init uid in
  user_id self = uid /\
  key self = "notification_feed:1:user:" +:+ Py.str_of_int uid /\
  count_key self
  = "notification_feed:1:user:" +:+ Py.str_of_int uid +:+ ":count" /\
  pubsub_key self
  = Some ("notification_feed:1:user:" +:+ Py.str_of_int uid +:+ ":pubsub") /\
  lock_key self
  = "notification_feed:1:user:{'user_id': " +:+ Py.str_of_int uid +:+ "}:lock" /\
  has_pubsub self = true.
Proof.
  assert (Ek : Py.percent key_format (Py.Scalar uid)
               = "notification_feed:1:user:" +:+ Py.str_of_int uid).
  { rewrite <- (append_empty (Py.str_of_int uid)).
    by apply (percent_scalar "notification_feed:1:user:" ""). }
  assert (Ec : Py.percent count_format (Py.Mapping uid)
               = "notification_feed:1:user:" +:+ Py.str_of_int uid +:+ ":count")
    by (apply (percent_named "notification_feed:1:user:" ":count"); reflexivity).
  assert (Ep : Py.percent "notification_feed:1:user:%(user_id)s:pubsub"
                 (Py.Mapping uid)
               = "notification_feed:1:user:" +:+ Py.str_of_int uid +:+ ":pubsub")
    by (apply (percent_named "notification_feed:1:user:" ":pubsub"); reflexivity).
  assert (El : Py.percent lock_format (Py.Mapping uid)
               = "notification_feed:1:user:{'user_id': "
                   +:+ Py.str_of_int uid +:+ "}:lock").
  { rewrite (percent_whole "notification_feed:1:user:" ":lock") by reflexivity.
    unfold Py.str_of_operand. rewrite !append_assoc. reflexivity. }
  cbn zeta. unfold NotificationFeed_init, init, has_pubsub, pubsub_format.
  cbn [Py.truthy user_id key count_key pubsub_key lock_key].
  rewrite Ek, Ec, Ep, El. split_and!; done.
Qed.

(** X2. The keys of the feed of user [uid], for every [uid]: the sorted set
    and the counter cell carry the number of the user; so does the channel,
    which the class as written always has; the key of the lock carries the
    dictionary [{'user_id': uid}] as Python prints it, because [lock_format]
    has the placeholder [%s] and is filled with [format_dict]. *)
Theorem init_keys uid :
  let self := NotificationFeed_init uid in
  user_id self = uid /\
  key self = "notification_feed:1:user:" +:+ Py.str_of_int uid /\
  count_key self
  = "notification_feed:1:user:" +:+ Py.str_of_int uid +:+ ":count" /\
  pubsub_key self
  = Some ("notification_feed:1:user:" +:+ Py.str_of_int uid +:+ ":pubsub") /\
  lock_key self
  = "notification_feed:1:user:{'user_id': " +:+ Py.str_of_int uid +:+ "}:lock" /\
  has_pubsub self = true.
Proof. apply init_keys_eq. Qed.

Lemma keys_tell_users_apart_eq u1 u2 :
  u1 <> u2 ->
  key (NotificationFeed_init u1) <> key (NotificationFeed_init u2) /\
  count_key (NotificationFeed_init u1) <> count_key (NotificationFeed_init u2) /\
  pubsub_key (NotificationFeed_init u1) <> pubsub_key (NotificationFeed_init u2) /\
  lock_key (NotificationFeed_init u1) <> lock_key (NotificationFeed_init u2).
Proof.
  intros Hne.
  destruct (init_keys_eq u1) as (_ & Ek1 & Ec1 & Ep1 & El1 & _).
  destruct (init_keys_eq u2) as (_ & Ek2 & Ec2 & Ep2 & El2 & _).
  rewrite Ek1, Ek2, Ec1, Ec2, Ep1, Ep2, El1, El2.
  split_and!; intros E; apply Hne.
  - apply PyFormat.app_inv_head in E. by apply PyFormat.str_of_int_inj.
  - by apply PyFormat.framed_inj in E.
  - injection E as E. by apply PyFormat.framed_inj in E.
  - by apply PyFormat.framed_inj in E.
Qed.

(** X1. The feeds of two different users have different keys for their
    sorted sets, their counter cells, their channels and their locks. *)
Theorem keys_tell_users_apart u1 u2 :
  u1 <> u2 ->
  key (NotificationFeed_init u1) <> key (NotificationFeed_init u2) /\
  count_key (NotificationFeed_init u1) <> count_key (NotificationFeed_init u2) /\
  pubsub_key (NotificationFeed_init u1) <> pubsub_key (NotificationFeed_init u2) /\
  lock_key (NotificationFeed_init u1) <> lock_key (NotificationFeed_init u2).
Proof. apply keys_tell_users_apart_eq. Qed.

(** A class without [pubsub_format], or with an empty one, gives a feed
    without a channel. *)
Lemma init_without_format f uid :
  f = None \/ f = Some "" -> has_pubsub (init f uid) = false.
Proof. by intros [-> | ->]. Qed.

End Keys.

(** ** Bounds, order and repetition *)

Section Bounds.
Context `{Serializer} `{!Clock} `{!Aggregator}.
Variable self : NotificationFeed.

Lemma unseen_le_length l : (unseen l <= length l)%nat.
Proof. apply length_filter. Qed.

Lemma top_count_bounds entries :
  0 <= top_count entries <= Z.of_nat (min max_length (length entries)).
Proof.
  unfold top_count. rewrite count_unseen_in_unseen.
  pose proof (unseen_le_length (take max_length (sort_desc updated_at entries))) as Hl.
  rewrite length_take, length_sort_desc in Hl. lia.
Qed.

Lemma length_window w : (length (window self w) <= max_length)%nat.
Proof.
  unfold window, zrevrange, members. rewrite !length_map, length_take. lia.
Qed.

Lemma length_marked seen read w :
  length (marked self seen read w).1.1 = length (window self w).
Proof.
  destruct (mark_loop_facts seen read (window self w) w) as (Hmarks & _).
  symmetry. exact (Forall2_length _ _ _ Hmarks).
Qed.

(** X4. The count never leaves the range from 0 to [max_length]:
    [denormalize_count] gives a count between 0 and the smaller of 99 and the
    number of entries it is given, so 0 for no entries; what
    [get_denormalized_count] reads after [add_many] or [mark_all] lies between
    0 and 99; and [count_unseen()] without a collection counts at most 99
    entries of the store and leaves Redis as it is. *)
Theorem count_bounds :
  (forall entries w,
      0 <= (denormalize_count self entries w).1.2
        <= Z.of_nat (min max_length (length entries))) /\
  (forall new w,
      exists n, get_denormalized_count self (add_many self new w).2 = Ok n /\
                0 <= n <= 99) /\
  (forall seen read w,
      exists n, get_denormalized_count self (mark_all self seen read w).2 = Ok n /\
                0 <= n <= 99) /\
  (forall w,
      (count_unseen self None w).1 = Z.of_nat (unseen (window self w)) /\
      0 <= (count_unseen self None w).1 <= 99 /\
      (count_unseen self None w).2 = w).
Proof.
  split_and!.
  - intros entries w. rewrite denormalize_count_run. simpl.
    apply top_count_bounds.
  - intros new w. rewrite add_many_run. simpl. eexists. split.
    + apply get_after_set. simpl. apply lookup_insert_eq.
    + pose proof (top_count_bounds (merge new (zset_at (key self) w)).2).
      unfold max_length in *. lia.
  - intros seen read w. rewrite mark_all_run. simpl. eexists. split.
    + apply get_after_set. simpl. apply lookup_insert_eq.
    + pose proof (top_count_bounds (marked self seen read w).1.1).
      unfold max_length in *. lia.
  - intros w. unfold count_unseen, getitem_slice, redis_zrevrange, bind, ret.
    simpl. fold (window self w). rewrite count_unseen_in_unseen.
    pose proof (unseen_le_length (window self w)).
    pose proof (length_window w). unfold max_length in *.
    split_and!; [done | lia | lia | done].
Qed.

(** X5. [denormalize_count] on the list it has just sorted changes nothing:
    the list stays as it is, the count is the same, and the string keys and
    sorted sets of Redis are what they were after the first call; the count
    is written and announced once more. *)
Theorem denormalize_count_twice entries w :
  let r1 := denormalize_count self entries w in
  let r2 := denormalize_count self r1.1.1 r1.2 in
  r2.1 = r1.1 /\
  strings r2.2 = strings r1.2 /\
  zsets r2.2 = zsets r1.2 /\
  issued (denormalize_count self r1.1.1) r1.2
  = issued (denormalize_count self entries) w.
Proof.
  cbn zeta.
  assert (E : sort_desc updated_at (sort_desc updated_at entries)
              = sort_desc updated_at entries)
    by apply sort_desc_id, sort_desc_descending.
  assert (Ec : top_count (sort_desc updated_at entries) = top_count entries)
    by (unfold top_count; by rewrite E).
  rewrite !(issued_app _ _ _ (f_equal log (f_equal snd (denormalize_count_run self _ _)))).
  rewrite !denormalize_count_run. simpl. rewrite E, Ec.
  split_and!; [done | apply insert_insert_eq | done | done].
Qed.

(** X10. What the two operations return is in order, latest [updated_at]
    first: [add_many] returns the collection of the merge, sorted;
    [mark_all] returns as many entries as it read, at most 99, sorted, each
    with the group, the activities and the [updated_at] it was read with. *)
Theorem returns_in_order :
  (forall new w,
      descending updated_at (add_many self new w).1 /\
      (add_many self new w).1 ≡ₚ (merge new (zset_at (key self) w)).2) /\
  (forall seen read w,
      descending updated_at (mark_all self seen read w).1 /\
      length (mark_all self seen read w).1 = length (window self w) /\
      (length (mark_all self seen read w).1 <= max_length)%nat /\
      map (fun a => (group a, activities a, updated_at a))
          (mark_all self seen read w).1
      ≡ₚ map (fun a => (group a, activities a, updated_at a)) (window self w)).
Proof.
  split.
  - intros new w. rewrite add_many_run. simpl.
    split; [apply sort_desc_descending | apply sort_desc_perm].
  - intros seen read w. rewrite mark_all_run. simpl.
    split_and!.
    + apply sort_desc_descending.
    + by rewrite length_sort_desc, length_marked.
    + rewrite length_sort_desc, length_marked. apply length_window.
    + rewrite sort_desc_perm.
      destruct (mark_loop_facts seen read (window self w) w) as (Hmarks & _).
      fold (marked self seen read w) in Hmarks.
      assert (E : map (fun a => (group a, activities a, updated_at a))
                      (marked self seen read w).1.1
                  = map (fun a => (group a, activities a, updated_at a))
                        (window self w)); [|by rewrite E].
      induction Hmarks as [|a a' l l' (Hg & Ha & Hu & _) _ IH]; simpl; [done|].
      by rewrite Hg, Ha, Hu, IH.
Qed.

End Bounds.

(** ** Entries below the top *)

Section Below.
Context {A : Type} (key : A -> Z).

Lemma insert_desc_app_l a xs ys :
  (forall y, y ∈ ys -> key y <= key a) ->
  insert_desc key a (xs ++ ys) = insert_desc key a xs ++ ys.
Proof.
  intros Hys. induction xs as [|x xs IH]; simpl.
  - destruct ys as [|y ys]; simpl; [done|].
    destruct (Z.leb_spec (key y) (key a)) as [_|Hlt]; [done|].
    specialize (Hys y (list_elem_of_here _ _)). lia.
  - destruct (key x <=? key a); [done | by rewrite IH].
Qed.

Lemma insert_desc_app_r b xs ys :
  (forall x, x ∈ xs -> key b < key x) ->
  insert_desc key b (xs ++ ys) = xs ++ insert_desc key b ys.
Proof.
  induction xs as [|x xs IH]; intros Hxs; simpl; [done|].
  destruct (Z.leb_spec (key x) (key b)) as [Hle|_].
  - specialize (Hxs x (list_elem_of_here _ _)). lia.
  - rewrite IH; [done|]. intros y Hy. apply Hxs. by right.
Qed.

(** Entries that are all older than the others sort behind them, whether
    they stood behind or in front. *)
Lemma sort_desc_app l older :
  (forall a b, a ∈ l -> b ∈ older -> key b < key a) ->
  sort_desc key (l ++ older) = sort_desc key l ++ sort_desc key older.
Proof.
  induction l as [|a l IH]; intros Hlt; simpl; [done|].
  rewrite IH by (intros x y Hx Hy; apply Hlt; [by right | done]).
  apply insert_desc_app_l. intros y Hy%elem_of_sort_desc.
  specialize (Hlt a y (list_elem_of_here _ _) Hy). lia.
Qed.

Lemma sort_desc_app_rev l older :
  (forall a b, a ∈ l -> b ∈ older -> key b < key a) ->
  sort_desc key (older ++ l) = sort_desc key l ++ sort_desc key older.
Proof.
  induction older as [|b older IH]; intros Hlt; simpl.
  - by rewrite app_nil_r.
  - rewrite IH by (intros x y Hx Hy; apply Hlt; [done | by right]).
    apply insert_desc_app_r. intros x Hx%elem_of_sort_desc.
    apply Hlt; [done | by left].
Qed.

End Below.

Section Top.
Context `{Serializer} `{!Clock} `{!Aggregator}.
Variable self : NotificationFeed.

(** X6. Entries below the top 99 do not count: when a collection has 99
    entries or more, entries that are all older than these, whether seen or
    not and whether they stand behind or in front of them, leave the count of
    [denormalize_count] as it is. *)
Theorem older_entries_do_not_count entries older w :
  (max_length <= length entries)%nat ->
  (forall a b, a ∈ entries -> b ∈ older -> updated_at b < updated_at a) ->
  (denormalize_count self (entries ++ older) w).1.2
  = (denormalize_count self entries w).1.2 /\
  (denormalize_count self (older ++ entries) w).1.2
  = (denormalize_count self entries w).1.2.
Proof.
  intros Hlen Hlt. rewrite !denormalize_count_run. simpl. unfold top_count.
  rewrite sort_desc_app, sort_desc_app_rev by done.
  rewrite take_app_le by (by rewrite length_sort_desc).
  done.
Qed.

End Top.

(** ** What [mark_all] does for each choice of flags *)

Section Flags.
Context `{Serializer} `{!Clock} `{!Aggregator}.
Variable self : NotificationFeed.

Lemma marks_read seen lo hi a a' :
  marks seen Py.PyTrue lo hi a a' -> is_read a' = true.
Proof.
  intros (_ & _ & _ & _ & Hr). unfold is_read in *. simpl in Hr.
  destruct (read_at a); simpl in Hr.
  - by rewrite Hr.
  - by destruct Hr as (? & _ & ->).
Qed.

Lemma marks_keeps_seen seen read lo hi a a' :
  Py.is_True seen = false -> marks seen read lo hi a a' ->
  is_seen a' = is_seen a.
Proof.
  intros Hs (_ & _ & _ & Hseen & _). rewrite Hs in Hseen. simpl in Hseen.
  unfold is_seen. by rewrite Hseen.
Qed.

Lemma unseen_perm l l' : l ≡ₚ l' -> unseen l = unseen l'.
Proof. intros Hp. unfold unseen. by rewrite Hp. Qed.

Lemma unseen_kept l l' :
  Forall2 (fun a a' => is_seen a' = is_seen a) l l' -> unseen l' = unseen l.
Proof.
  unfold unseen. induction 1 as [|a a' l l' Ha _ IH]; [done|].
  rewrite !filter_cons, Ha.
  destruct (decide (is_seen a = false)); simpl; by rewrite IH.
Qed.

Lemma marked_read seen w a :
  a ∈ (marked self seen Py.PyTrue w).1.1 -> is_read a = true.
Proof.
  intros Ha.
  destruct (mark_loop_facts seen Py.PyTrue (window self w) w) as (Hmarks & _).
  fold (marked self seen Py.PyTrue w) in Hmarks.
  apply list_elem_of_lookup in Ha as [i Hi].
  destruct (Forall2_lookup_r _ _ _ _ _ Hmarks Hi) as (o & _ & Hm).
  by eapply marks_read.
Qed.

(** X7. After [mark_all(seen=True)], whatever [read] is and whatever the
    store held, every entry returned is seen and the count read back is 0;
    after [mark_all] with [read=True] every entry returned is read. *)
Theorem mark_all_leaves_marked :
  (forall read w,
      Forall (fun a => is_seen a = true) (mark_all self Py.PyTrue read w).1 /\
      get_denormalized_count self (mark_all self Py.PyTrue read w).2 = Ok 0) /\
  (forall seen w,
      Forall (fun a => is_read a = true) (mark_all self seen Py.PyTrue w).1).
Proof.
  split.
  - intros read w. rewrite mark_all_run. simpl. split.
    + apply Forall_forall. intros a Ha%elem_of_sort_desc.
      by eapply marked_seen.
    + apply get_after_set. simpl.
      rewrite top_count_all_seen; [apply lookup_insert_eq|].
      intros a Ha. by eapply marked_seen.
  - intros seen w. rewrite mark_all_run. simpl.
    apply Forall_forall. intros a Ha%elem_of_sort_desc.
    by eapply marked_read.
Qed.

Lemma mark_one_ticks seen read a w :
  ticks (mark_one seen read a w).2
  = (ticks w + clock_readings seen read [a])%nat.
Proof.
  unfold mark_one, clock_readings, bind, today, ret, is_seen, is_read.
  destruct a as [g l u s r].
  destruct (Py.is_True seen), (Py.is_True read), s, r; simpl; lia.
Qed.

Lemma clock_readings_cons seen read a l :
  clock_readings seen read (a :: l)
  = (clock_readings seen read [a] + clock_readings seen read l)%nat.
Proof.
  unfold clock_readings. rewrite !(filter_cons _ a l), !(filter_cons _ a []).
  repeat case_decide; simpl; lia.
Qed.

Lemma mark_loop_ticks seen read l d w :
  ticks (mark_loop seen read l d w).2
  = (ticks w + clock_readings seen read l)%nat.
Proof.
  revert d w. induction l as [|a l IH]; intros d w.
  { simpl. unfold clock_readings. simpl. lia. }
  rewrite mark_loop_cons. cbn zeta. simpl.
  rewrite IH, mark_one_ticks, (clock_readings_cons _ _ a l). lia.
Qed.

(** X13. [mark_all] asks for the time once for each [seen_at] and once for
    each [read_at] it sets, so at most twice for each of the at most 99
    entries it reads; [add_many] and [denormalize_count] never ask for it. *)
Theorem clock_is_read_per_field :
  (forall seen read w,
      ticks (mark_all self seen read w).2
      = (ticks w + clock_readings seen read (window self w))%nat /\
      (clock_readings seen read (window self w) <= 2 * max_length)%nat) /\
  (forall new w, ticks (add_many self new w).2 = ticks w) /\
  (forall entries w, ticks (denormalize_count self entries w).2 = ticks w).
Proof.
  split_and!.
  - intros seen read w. rewrite mark_all_run. simpl. split.
    + apply mark_loop_ticks.
    + unfold clock_readings.
      pose proof (length_filter
        (fun a => Py.is_True seen && negb (is_seen a) = true) (window self w)).
      pose proof (length_filter
        (fun a => Py.is_True read && negb (is_read a) = true) (window self w)).
      pose proof (length_window self w). unfold max_length in *. lia.
  - intros new w. by rewrite add_many_run.
  - intros entries w. by rewrite denormalize_count_run.
Qed.

Lemma needs_change_off seen read a :
  Py.is_True seen = false -> Py.is_True read = false ->
  needs_change seen read a = false.
Proof. intros Hs Hr. unfold needs_change. by rewrite Hs, Hr. Qed.

(** X8. [mark_all] marks only for the constant [True]: when neither [seen]
    nor [read] is [True] (they may be [None], [False] or anything else), no
    entry is changed, the entries read are returned in order, the sorted
    sets and the clock are left alone, and the commands issued are the write
    and the publish of the count, inside the batch and the lock, with no
    ZREM and no ZADD. *)
Theorem mark_all_without_flags seen read w :
  Py.is_True seen = false -> Py.is_True read = false ->
  let r := mark_all self seen read w in
  r.1 = sort_desc updated_at (window self w) /\
  zsets r.2 = zsets w /\
  ticks r.2 = ticks w /\
  issued (mark_all self seen read) w =
  [Lock (lock_key self) 2; MapEnter;
   SetKey (count_key self) (Py.str_of_int (top_count (window self w)))]
    ++ announce self (top_count (window self w))
    ++ [MapExit; Unlock (lock_key self)].
Proof.
  intros Hs Hr. cbn zeta.
  assert (Hidle : (marked self seen read w).1 = (window self w, [])).
  { apply mark_loop_idle. intros a _. by apply needs_change_off. }
  assert (Hk : ticks (marked self seen read w).2 = ticks w).
  { unfold marked. rewrite mark_loop_ticks. unfold clock_readings.
    rewrite Hs, Hr. simpl.
    assert (E : forall l : list AggregatedActivity,
               filter (fun _ => false = true) l = []).
    { induction l as [|a l IH]; [done|]. rewrite filter_cons.
      case_decide; [done | exact IH]. }
    rewrite !E. simpl. lia. }
  rewrite mark_all_issued, mark_all_run. simpl. rewrite Hidle, Hk. simpl.
  done.
Qed.

(** X9. Marking as read does not touch the count: when [seen] is not
    [True], the count that [mark_all] writes, and that is read back after it,
    is the number of unseen entries among those it read. *)
Theorem mark_all_read_keeps_count seen read w :
  Py.is_True seen = false ->
  get_denormalized_count self (mark_all self seen read w).2
  = Ok (Z.of_nat (unseen (window self w))).
Proof.
  intros Hs. rewrite mark_all_run. simpl.
  apply get_after_set. simpl. rewrite lookup_insert_eq. do 2 f_equal.
  unfold top_count. rewrite count_unseen_in_unseen. f_equal.
  rewrite take_ge
    by (rewrite length_sort_desc, length_marked; apply length_window).
  rewrite (unseen_perm _ _ (sort_desc_perm updated_at _)).
  apply unseen_kept.
  destruct (mark_loop_facts seen read (window self w) w) as (Hmarks & _).
  fold (marked self seen read w) in Hmarks.
  eapply Forall2_impl; [exact Hmarks|].
  intros a a' Hm. by eapply marks_keeps_seen.
Qed.

End Flags.

(** ** The order of the commands, and what is left alone *)

Section Order.
Context `{Serializer} `{!Clock} `{!Aggregator}.
Variable self : NotificationFeed.

Lemma announce_publishes c : Forall (fun e => is_publish e = true) (announce self c).
Proof. unfold announce. destruct (has_pubsub self); repeat constructor. Qed.

Lemma swap_events_write d : Forall (fun e => writes_zset e = true) (swap_events self d).
Proof. unfold swap_events. destruct d; repeat constructor. Qed.

(** X11. The commands of an operation come in one order.  [add_many]:
    the lock with timeout 2 is taken, the sorted set is written, the counter
    cell is written once, the publishes follow, the lock is released.
    [mark_all]: the same, with the writes of the sorted set, the write of
    the counter and the publish all inside the batch that is opened after the
    lock is taken and closed before it is released. *)
Theorem commands_in_order :
  (forall new w,
      exists zs v ps,
        issued (add_many self new) w
        = [Lock (lock_key self) 2] ++ zs ++ [SetKey (count_key self) v] ++ ps
            ++ [Unlock (lock_key self)] /\
        Forall (fun e => writes_zset e = true) zs /\
        Forall (fun e => is_publish e = true) ps) /\
  (forall seen read w,
      exists zs v ps,
        issued (mark_all self seen read) w
        = [Lock (lock_key self) 2; MapEnter] ++ zs
            ++ [SetKey (count_key self) v] ++ ps
            ++ [MapExit; Unlock (lock_key self)] /\
        Forall (fun e => writes_zset e = true) zs /\
        Forall (fun e => is_publish e = true) ps).
Proof.
  split.
  - intros new w. rewrite add_many_issued.
    set (c := top_count (merge new (zset_at (key self) w)).2).
    exists [Merge (key self)], (Py.str_of_int c), (announce self c ++ announce self c).
    split_and!.
    + simpl. by rewrite <- !app_assoc.
    + repeat constructor.
    + apply Forall_app. split; apply announce_publishes.
  - intros seen read w. rewrite mark_all_issued.
    set (r := marked self seen read w). set (c := top_count r.1.1).
    exists (swap_events self r.1.2), (Py.str_of_int c), (announce self c).
    split_and!; [done | apply swap_events_write | apply announce_publishes].
Qed.

(** X12. A feed without a channel never publishes: none of
    [denormalize_count], [add_many] and [mark_all] issues a publish. *)
Theorem no_channel_no_publish :
  has_pubsub self = false ->
  (forall entries w, publishes (issued (denormalize_count self entries) w) = []) /\
  (forall new w, publishes (issued (add_many self new) w) = []) /\
  (forall seen read w, publishes (issued (mark_all self seen read) w) = []).
Proof.
  intros Hp. split_and!.
  - intros entries w. rewrite denormalize_count_issued. unfold announce.
    by rewrite Hp.
  - intros new w. rewrite add_many_issued. unfold announce. by rewrite Hp.
  - intros seen read w. rewrite mark_all_issued. unfold announce, swap_events.
    rewrite Hp. by destruct ((marked self seen read w).1.2).
Qed.

(** What the operations leave alone in Redis. *)
Lemma add_many_frame new w :
  (forall k, k <> count_key self ->
             strings (add_many self new w).2 !! k = strings w !! k) /\
  (forall k, k <> key self ->
             zsets (add_many self new w).2 !! k = zsets w !! k).
Proof.
  rewrite add_many_run. simpl.
  split; intros k Hk; by rewrite lookup_insert_ne.
Qed.

Lemma mark_all_frame seen read w :
  (forall k, k <> count_key self ->
             strings (mark_all self seen read w).2 !! k = strings w !! k) /\
  (forall k, k <> key self ->
             zsets (mark_all self seen read w).2 !! k = zsets w !! k).
Proof.
  rewrite mark_all_run. simpl. split; intros k Hk.
  - by rewrite lookup_insert_ne.
  - destruct ((marked self seen read w).1.2); [done|].
    by rewrite lookup_insert_ne.
Qed.

End Order.

Section Others.
Context `{Serializer} `{!Clock} `{!Aggregator}.

Lemma get_denormalized_count_ext self w w' :
  strings w' !! count_key self = strings w !! count_key self ->
  get_denormalized_count self w' = get_denormalized_count self w.
Proof.
  intros E. unfold get_denormalized_count, redis_get. simpl. by rewrite E.
Qed.

(** X3. The operations on the feed of one user leave the feeds of all other
    users alone: after [add_many] or [mark_all] for user [u1], the counter
    cell and the sorted set of any other user [u2] are what they were, and
    so is the count read for [u2]. *)
Theorem other_users_untouched u1 u2 :
  u1 <> u2 ->
  let a := NotificationFeed_init u1 in
  let b := NotificationFeed_init u2 in
  (forall new w,
      strings (add_many a new w).2 !! count_key b = strings w !! count_key b /\
      zset_at (key b) (add_many a new w).2 = zset_at (key b) w /\
      get_denormalized_count b (add_many a new w).2
      = get_denormalized_count b w) /\
  (forall seen read w,
      strings (mark_all a seen read w).2 !! count_key b
      = strings w !! count_key b /\
      zset_at (key b) (mark_all a seen read w).2 = zset_at (key b) w /\
      get_denormalized_count b (mark_all a seen read w).2
      = get_denormalized_count b w).
Proof.
  intros Hne a b.
  destruct (keys_tell_users_apart_eq u2 u1 (not_eq_sym Hne)) as (Hk & Hc & _).
  fold a b in Hk, Hc. split.
  - intros new w. destruct (add_many_frame a new w) as [Hs Hz].
    split_and!.
    + by apply Hs.
    + unfold zset_at. by rewrite Hz.
    + apply get_denormalized_count_ext. by apply Hs.
  - intros seen read w. destruct (mark_all_frame a seen read w) as [Hs Hz].
    split_and!.
    + by apply Hs.
    + unfold zset_at. by rewrite Hz.
    + apply get_denormalized_count_ext. by apply Hs.
Qed.

End Others.

(** ** The sorted set after [mark_all] *)

Section Store.
Context `{Serializer} `{!Clock} `{!Aggregator}.
Variable self : NotificationFeed.

Lemma dict_set_keys_NoDup {V} (d : list (AggregatedActivity * V)) k v :
  NoDup (map fst d) -> NoDup (map fst (dict_set d k v)).
Proof.
  induction d as [|[k0 v0] d IH]; simpl.
  { intros _. apply NoDup_singleton. }
  rewrite NoDup_cons. intros [Hk Hd].
  case_decide; subst; simpl; apply NoDup_cons; [done|].
  split; [|by apply IH].
  intros Hin. apply Hk.
  apply list_elem_of_fmap in Hin as ([k1 v1] & -> & Hp).
  apply elem_of_dict_set in Hp as [Hp|[= -> ->]]; [|done].
  apply list_elem_of_fmap. by exists (k1, v1).
Qed.

Lemma dict_of_keys_NoDup seen read d pairs :
  NoDup (map fst d) -> NoDup (map fst (dict_of seen read d pairs)).
Proof.
  unfold dict_of. revert d. induction pairs as [|q pairs IH]; intros d Hd; simpl.
  { done. }
  apply IH. destruct (needs_change seen read q.1); [|done].
  by apply dict_set_keys_NoDup.
Qed.

Lemma length_zadd pairs (z : zset) :
  (length (zadd pairs z) <= length z + length pairs)%nat.
Proof.
  unfold zadd. revert z. induction pairs as [|p pairs IH]; intros z; simpl.
  { lia. }
  etrans; [apply IH|]. unfold zadd1. simpl.
  match goal with
  | |- context [length (filter ?P z)] => pose proof (length_filter P z)
  end.
  unfold zset in *. lia.
Qed.

Lemma length_filter_split {B} (P : B -> Prop) `{!forall x, Decision (P x)} l :
  (length (filter P l) + length (filter (fun x => ~ P x) l) = length l)%nat.
Proof.
  induction l as [|x l IH]; [done|]. rewrite !filter_cons.
  destruct (decide (P x)), (decide (~ P x)); simpl; try lia; tauto.
Qed.

(** Removing members that are there, each given once, shortens the set by
    their number. *)
Lemma length_zrem_members vs (z : zset) :
  NoDup vs -> (forall v, v ∈ vs -> v ∈ members z) ->
  (length (zrem vs z) + length vs <= length z)%nat.
Proof.
  intros Hnd Hin. unfold zrem.
  pose proof (length_filter_split (fun p : value * Z => p.1 ∈ vs) z) as Hsplit.
  assert (Hvs : (length vs <= length (filter (fun p : value * Z => p.1 ∈ vs) z))%nat).
  { rewrite <- (length_map fst (filter _ z)).
    apply submseteq_length, NoDup_submseteq; [done|].
    intros v Hv. specialize (Hin v Hv). unfold members in Hin.
    apply list_elem_of_fmap in Hin as (p & -> & Hp).
    apply list_elem_of_fmap. exists p. split; [done|].
    by apply list_elem_of_filter. }
  unfold zset in *. cbv beta in *. lia.
Qed.

(** X14. With a lossless serialization and a feed whose members are
    canonical and all different, [mark_all] keeps the members of the sorted
    set all different and does not make the set longer. *)
Theorem mark_all_keeps_size `{!Lossless} seen read w :
  canonical (zset_at (key self) w) ->
  NoDup (members (zset_at (key self) w)) ->
  NoDup (members (zset_at (key self) (mark_all self seen read w).2)) /\
  (length (zset_at (key self) (mark_all self seen read w).2)
   <= length (zset_at (key self) w))%nat.
Proof.
  intros Hcan Hnd. rewrite mark_all_zset. cbn zeta.
  pose proof (marked_dict self seen read w) as Hdict. cbn zeta in Hdict.
  destruct (mark_loop_spec seen read (window self w) [] w) as (_ & _ & _ & Hd).
  fold (marked self seen read w) in Hd.
  assert (Hkeys : NoDup (map fst (marked self seen read w).1.2)).
  { rewrite Hd. apply dict_of_keys_NoDup. constructor. }
  destruct ((marked self seen read w).1.2) as [|p d] eqn:Ed; [by split|].
  rewrite <- Ed in *. clear Ed. set (d' := (marked self seen read w).1.2) in *.
  unfold swap_zset. split.
  - by apply zadd_NoDup, zrem_NoDup.
  - etrans; [apply length_zadd|].
    assert (Hdel : NoDup (to_delete_of d')).
    { unfold to_delete_of. apply NoDup_fmap_2_strong; [|done].
      intros x y _ _ E. by apply serialize_inj. }
    assert (Hin : forall v, v ∈ to_delete_of d' -> v ∈ members (zset_at (key self) w)).
    { intros v Hv. unfold to_delete_of in Hv.
      apply list_elem_of_fmap in Hv as (o & -> & Ho).
      apply list_elem_of_fmap in Ho as ([o' n] & -> & Hp). simpl.
      destruct (Hdict _ _ Hp) as (Hw & _).
      unfold window in Hw. apply list_elem_of_fmap in Hw as (v & -> & Hv).
      apply zrevrange_members in Hv. by rewrite (Hcan v Hv). }
    pose proof (length_zrem_members _ _ Hdel Hin) as Hlen.
    unfold to_add_of, to_delete_of in *. rewrite !length_map in *. lia.
Qed.

(** X15. With a lossless serialization and a feed of at most [max_length]
    canonical members, counting from the store after [mark_all(seen=True)]
    agrees with the counter cell: [count_unseen()] gives 0, as
    [get_denormalized_count] does. *)
Theorem recount_agrees_after_seen `{!Lossless} read w :
  canonical (zset_at (key self) w) ->
  (length (zset_at (key self) w) <= max_length)%nat ->
  let w' := (mark_all self Py.PyTrue read w).2 in
  (count_unseen self None w').1 = 0 /\
  get_denormalized_count self w' = Ok 0.
Proof.
  intros Hcan Hlen w'. split.
  - unfold count_unseen, getitem_slice, redis_zrevrange, bind, ret. simpl.
    fold (window self w'). rewrite count_unseen_in_unseen.
    rewrite unseen_all_seen; [done|].
    intros a Ha. apply (window_within_capacity self Py.PyTrue read w Hcan Hlen) in Ha.
    rewrite mark_all_run in Ha. simpl in Ha. apply elem_of_sort_desc in Ha.
    by eapply marked_seen.
  - subst w'. rewrite mark_all_run. simpl. apply get_after_set. simpl.
    rewrite top_count_all_seen; [apply lookup_insert_eq|].
    intros a Ha. by eapply marked_seen.
Qed.

End Store.

(** ** The counter and the feed *)

Section Consistency.
Context `{Serializer} `{!Clock} `{!Aggregator}.
Variable self : NotificationFeed.

















End Consistency.

(** ** The theorems on the concrete feed *)

Section Concrete.
Import Demo.

Lemma demo_lossless : Lossless.
Proof. intros []; reflexivity. Qed.

Lemma demo_canonical (z : zset) : canonical z.
Proof. intros [[[[g l] u] s] r] _. reflexivity. Qed.

(** The keys of user 7.  [lock_format] has the placeholder [%s] and is
    filled with [format_dict], so the dictionary itself is printed into the
    key. *)
Example keys_of_user_7 :
  key feed = "notification_feed:1:user:7" /\
  count_key feed = "notification_feed:1:user:7:count" /\
  pubsub_key feed = Some "notification_feed:1:user:7:pubsub" /\
  lock_key feed = "notification_feed:1:user:{'user_id': 7}:lock".
Proof. vm_compute. done. Qed.

(** What [int] reads. *)
Example int_reads :
  Py.int_of_str "42" = Some 42 /\ Py.int_of_str " -7 " = Some (-7) /\
  Py.int_of_str "+007" = Some 7 /\ Py.int_of_str "" = None /\
  Py.int_of_str "4 2" = None /\ Py.int_of_str "-" = None /\
  Py.int_of_str "abc" = None.
Proof. vm_compute. done. Qed.

(** The scenario of three unseen entries: [mark_all(seen=True)] marks the
    three of them, removes the three old forms and adds the three new ones
    in one batch, and writes and publishes the count 0. *)
Example three_unseen_marked :
  let r := mark_all feed Py.PyTrue Py.PyNone (store three) in
  r.1 = [mkAggregated _ "b" [] 3 (Some 1000) None;
         mkAggregated _ "c" [] 2 (Some 1001) None;
         mkAggregated _ "a" [] 1 (Some 1002) None] /\
  get_denormalized_count feed r.2 = Ok 0 /\
  log r.2 =
  [Lock "notification_feed:1:user:{'user_id': 7}:lock" 2; MapEnter;
   ZRem "notification_feed:1:user:7"
     [dumps (entry "b" 3 None); dumps (entry "c" 2 None);
      dumps (entry "a" 1 None)];
   ZAdd "notification_feed:1:user:7"
     [(dumps (entry "b" 3 (Some 1000)), 3);
      (dumps (entry "c" 2 (Some 1001)), 2);
      (dumps (entry "a" 1 (Some 1002)), 1)];
   SetKey "notification_feed:1:user:7:count" "0";
   Publish "notification_feed:1:user:7:pubsub" "0";
   MapExit; Unlock "notification_feed:1:user:{'user_id': 7}:lock"].
Proof. vm_compute. done. Qed.

(** The scenario of 150 entries: the 51 oldest are unseen and do not
    count. *)
Example beyond_the_top_does_not_count :
  let entries :=
    map (fun i => entry "g" (Z.of_nat i)
                    (if (i <? 51)%nat then None else Some 0))
        (seq 0 150) in
  (denormalize_count feed entries empty).1.2 = 0 /\
  unseen entries = 51%nat.
Proof. vm_compute. done. Qed.

Lemma get_denormalized_count_absent_witness :
  strings empty !! count_key feed = None /\
  get_denormalized_count feed empty = Ok 0.
Proof.
  split; [reflexivity|].
  apply (get_denormalized_count_absent feed empty). reflexivity.
Defined.

(** C2 as it is stated fails: with "abc" in the counter cell the call
    raises. *)
Lemma get_denormalized_count_abc_raises :
  Py.int_of_str "abc" = None /\
  get_denormalized_count feed (stored "abc") = Raise ValueError /\
  get_denormalized_count feed (stored "abc") <> Ok 0.
Proof. split_and!; [reflexivity | reflexivity | discriminate]. Qed.

Lemma get_denormalized_count_malformed_witness :
  strings (stored "abc") !! count_key feed = Some "abc" /\
  Py.int_of_str "abc" = None /\
  get_denormalized_count feed (stored "abc") = Raise ValueError.
Proof.
  split_and!; [reflexivity | reflexivity |].
  apply (get_denormalized_count_malformed feed (stored "abc") "abc");
    reflexivity.
Defined.

(** C8 as it is stated fails: the caller's list comes back in another
    order. *)
Lemma denormalize_count_reorders :
  (denormalize_count feed three empty).1.1
  = [entry "b" 3 None; entry "c" 2 None; entry "a" 1 None] /\
  (denormalize_count feed three empty).1.1 <> three.
Proof. split; [reflexivity | discriminate]. Qed.

Lemma publish_counts_witness :
  has_pubsub feed = true /\ publish_tally feed.
Proof.
  split; [reflexivity|]. apply (publish_counts feed). reflexivity.
Defined.

Lemma mark_all_swaps_values_witness :
  canonical (zset_at (key feed) (store three)) /\
  dumps (entry "a" 1 None)
    ∈ zrevrange max_length (zset_at (key feed) (store three)) /\
  needs_change Py.PyTrue Py.PyNone
    (deserialize_activity (dumps (entry "a" 1 None))) = true /\
  swapped feed Py.PyTrue Py.PyNone (store three) (dumps (entry "a" 1 None)).
Proof.
  assert (Hv : dumps (entry "a" 1 None)
                 ∈ zrevrange max_length (zset_at (key feed) (store three)))
    by (vm_compute; repeat constructor).
  split_and!; [apply demo_canonical | exact Hv | reflexivity |].
  apply (@mark_all_swaps_values raw serializer clock feed demo_lossless
           Py.PyTrue Py.PyNone (store three) (demo_canonical _)
           (dumps (entry "a" 1 None)) Hv).
  reflexivity.
Defined.




End Concrete.

(** ** The further theorems on the concrete feed *)

Section ConcreteMore.
Import Demo.

Lemma keys_tell_users_apart_witness :
  7 <> 8 /\
  key (NotificationFeed_init 7) <> key (NotificationFeed_init 8) /\
  count_key (NotificationFeed_init 7) <> count_key (NotificationFeed_init 8) /\
  pubsub_key (NotificationFeed_init 7) <> pubsub_key (NotificationFeed_init 8) /\
  lock_key (NotificationFeed_init 7) <> lock_key (NotificationFeed_init 8).
Proof.
  assert (Hne : 7 <> 8) by lia.
  split; [exact Hne|]. exact (keys_tell_users_apart 7 8 Hne).
Defined.

Lemma other_users_untouched_witness :
  7 <> 8 /\
  get_denormalized_count (NotificationFeed_init 8)
    (mark_all (NotificationFeed_init 7) Py.PyTrue Py.PyNone (store three)).2
  = get_denormalized_count (NotificationFeed_init 8) (store three) /\
  zset_at (key (NotificationFeed_init 8))
    (add_many (NotificationFeed_init 7) [5; 6] (store three)).2
  = zset_at (key (NotificationFeed_init 8)) (store three).
Proof.
  assert (Hne : 7 <> 8) by lia.
  split; [exact Hne|].
  destruct (other_users_untouched 7 8 Hne) as [Hadd Hmark].
  split.
  - apply (Hmark Py.PyTrue Py.PyNone (store three)).
  - apply (Hadd [5; 6] (store three)).
Defined.

Lemma older_entries_do_not_count_witness :
  (max_length <= length ninety_nine)%nat /\
  (forall a b, a ∈ ninety_nine -> b ∈ two_older ->
               updated_at b < updated_at a) /\
  (denormalize_count feed (ninety_nine ++ two_older) empty).1.2
  = (denormalize_count feed ninety_nine empty).1.2 /\
  (denormalize_count feed (two_older ++ ninety_nine) empty).1.2
  = (denormalize_count feed ninety_nine empty).1.2.
Proof.
  assert (Hlen : (max_length <= length ninety_nine)%nat)
    by (vm_compute; lia).
  assert (Hlt : forall a b, a ∈ ninety_nine -> b ∈ two_older ->
                            updated_at b < updated_at a).
  { assert (Hall : Forall (fun a => Forall (fun b => updated_at b < updated_at a)
                                      two_older) ninety_nine)
      by (apply (bool_decide_unpack _); vm_compute; exact I).
    intros a b Ha Hb.
    rewrite Forall_forall in Hall. specialize (Hall a Ha).
    rewrite Forall_forall in Hall. by apply Hall. }
  split; [exact Hlen|]. split; [exact Hlt|].
  exact (older_entries_do_not_count feed ninety_nine two_older empty Hlen Hlt).
Defined.

Lemma mark_all_without_flags_witness :
  Py.is_True Py.PyFalse = false /\ Py.is_True Py.PyNone = false /\
  (mark_all feed Py.PyFalse Py.PyNone (store three)).1
  = sort_desc updated_at (window feed (store three)) /\
  zsets (mark_all feed Py.PyFalse Py.PyNone (store three)).2
  = zsets (store three).
Proof.
  split; [reflexivity|]. split; [reflexivity|].
  destruct (mark_all_without_flags feed Py.PyFalse Py.PyNone (store three)
              eq_refl eq_refl) as (Hr & Hz & _).
  split; [exact Hr | exact Hz].
Defined.

Lemma mark_all_read_keeps_count_witness :
  Py.is_True Py.PyNone = false /\
  get_denormalized_count feed
    (mark_all feed Py.PyNone Py.PyTrue (store three)).2
  = Ok (Z.of_nat (unseen (window feed (store three)))).
Proof.
  split; [reflexivity|].
  exact (mark_all_read_keeps_count feed Py.PyNone Py.PyTrue (store three) eq_refl).
Defined.

Lemma no_channel_no_publish_witness :
  has_pubsub silent = false /\
  publishes (issued (add_many silent [5; 6]) (store three)) = [] /\
  publishes (issued (mark_all silent Py.PyTrue Py.PyNone) (store three)) = [].
Proof.
  split; [reflexivity|].
  destruct (no_channel_no_publish silent eq_refl) as (_ & Hadd & Hmark).
  split; [apply Hadd | apply Hmark].
Defined.

Lemma mark_all_keeps_size_witness :
  canonical (zset_at (key feed) (store three)) /\
  NoDup (members (zset_at (key feed) (store three))) /\
  NoDup (members (zset_at (key feed)
                    (mark_all feed Py.PyTrue Py.PyNone (store three)).2)) /\
  (length (zset_at (key feed)
             (mark_all feed Py.PyTrue Py.PyNone (store three)).2)
   <= length (zset_at (key feed) (store three)))%nat.
Proof.
  assert (Hnd : NoDup (members (zset_at (key feed) (store three))))
    by (apply (bool_decide_unpack _); vm_compute; exact I).
  split; [apply demo_canonical|]. split; [exact Hnd|].
  exact (@mark_all_keeps_size raw serializer clock feed demo_lossless
           Py.PyTrue Py.PyNone (store three) (demo_canonical _) Hnd).
Defined.

Lemma recount_agrees_after_seen_witness :
  canonical (zset_at (key feed) (store three)) /\
  (length (zset_at (key feed) (store three)) <= max_length)%nat /\
  (count_unseen feed None
     (mark_all feed Py.PyTrue Py.PyNone (store three)).2).1 = 0 /\
  get_denormalized_count feed
    (mark_all feed Py.PyTrue Py.PyNone (store three)).2 = Ok 0.
Proof.
  assert (Hlen : (length (zset_at (key feed) (store three)) <= max_length)%nat)
    by (vm_compute; lia).
  split; [apply demo_canonical|]. split; [exact Hlen|].
  exact (@recount_agrees_after_seen raw serializer clock feed demo_lossless
           Py.PyNone (store three) (demo_canonical _) Hlen).
Defined.

End ConcreteMore.
